(** * Deployment-target resolution and stack-lifecycle orchestration

    A shallow embedding of the parts of the accelerator that decide where a
    resource is provisioned and how a stack is upserted:

    - [CreateStack]: the Lambda handler of [core/runtime/src/create-stack/create.ts];
    - [DefaultsStep1]: [blockS3PublicAccess] and [createDefaultEbsEncryptionKey]
      of [deployments/defaults/step-1.ts];
    - [AcceptVpcEndpoint]: the [Ec2AcceptVpcEndpointConnection] custom resource
      and its [lambdaFunction] getter;
    - [MetadataCollection]: the two [createMetadataService] definitions of
      [deployments/metadata-collection/index.ts].

    Calls that leave the process (DynamoDB, STS, CloudFormation, the template
    store) and constructs handed to the CDK are recorded as events of a trace,
    in program order. *)

From Stdlib Require Import Sorted.
From stdpp Require Import gmap strings list fin_maps.

Set Default Proof Using "Type".

(** ** JavaScript values used by all modules *)

(** [if (s)] on a [string | undefined]: [undefined] and the empty string are
    falsy, every other string is truthy. *)
Definition truthy (o : option string) : bool :=
  match o with
  | Some s => bool_decide (s ≠ "")
  | None => false
  end.

(** [if (b)] on a [boolean | undefined]. *)
Definition truthy_flag (o : option bool) : bool :=
  match o with
  | Some b => b
  | None => false
  end.

(** [a === b] on two [string | undefined] values. *)
Definition strict_eq (a b : option string) : bool := bool_decide (a = b).

(** A thrown JavaScript error, identified by its message. *)
Definition Error := string.

(** ** A promise-like computation: a trace of events and a completion *)

Inductive Completion (A : Type) : Type :=
| Fulfilled (a : A)
| Rejected (e : Error).
Arguments Fulfilled {A} a.
Arguments Rejected {A} e.

Record Run (E A : Type) : Type := MkRun {
  trace : list E;
  completion : Completion A;
}.
Arguments MkRun {E A} trace completion.
Arguments trace {E A} r.
Arguments completion {E A} r.

Definition run_ret {E A} (a : A) : Run E A := MkRun [] (Fulfilled a).

(** [await m; k]: a rejection of [m] skips [k] and rejects the whole. *)
Definition run_bind {E A B} (m : Run E A) (k : A → Run E B) : Run E B :=
  match completion m with
  | Fulfilled a => MkRun (trace m ++ trace (k a)) (completion (k a))
  | Rejected e => MkRun (trace m) (Rejected e)
  end.

(** One observable event that cannot fail. *)
Definition emit {E} (e : E) : Run E unit := MkRun [e] (Fulfilled tt).

(** One call to a collaborator: the call is recorded, its answer decides
    whether the caller goes on. *)
Definition call {E A} (e : E) (answer : Completion A) : Run E A := MkRun [e] answer.

Declare Scope run_scope.
Delimit Scope run_scope with run.
Notation "x ←ᵣ m ; k" := (run_bind m (λ x, k))
  (at level 100, m at next level, k at level 200, right associativity) : run_scope.
Notation "m ;;ᵣ k" := (run_bind m (λ _, k))
  (at level 100, k at level 200, right associativity) : run_scope.

(** ** [create.ts]: the create-stack handler *)

Module CreateStack.
Section Handler.
Local Open Scope run_scope.

(** Types that [create.ts] only imports. *)
Context {StackTemplateLocation Account Credentials CfnParameters : Type}.

(** [objectToCloudFormationParameters], imported from the common package. *)
Variable objectToCloudFormationParameters : list (string * string) → CfnParameters.

Record CreateStackInput : Type := {
  stackName : string;
  stackCapabilities : list string;
  stackParameters : list (string * string);
  stackTemplate : StackTemplateLocation;
  accountId : option string;
  assumeRoleName : option string;
  region : option string;
  ignoreAccountId : option string;
  ignoreRegion : option string;
  parametersTableName : string;
}.

(** The client built at lines 80-86: [new CloudFormation()] or
    [new CloudFormation(credentials, region)]. *)
Inductive CloudFormation : Type :=
| CloudFormationAmbient
| CloudFormationWith (credentials : Credentials) (region : option string).

Record CreateOrUpdateStackInput : Type := {
  StackName : string;
  TemplateBody : string;
  Capabilities : list string;
  Parameters : CfnParameters;
}.

Inductive ConsoleArg : Type :=
| Text (s : string)
| InputJson (i : CreateStackInput)
| TemplateLocation (t : StackTemplateLocation)
| AccountList (l : list Account).

Inductive Event : Type :=
| ConsoleLog (a : ConsoleArg)
| ConsoleDebug (a : ConsoleArg)
| LoadAccounts (tableName : string)
| GetTemplateBody (location : StackTemplateLocation)
| GetCredentialsForAccountAndRole (accountId roleName : string)
| CreateOrUpdateStack (cfn : CloudFormation) (req : CreateOrUpdateStackInput).

(** Everything outside the handler: the answers of the collaborators, and
    the account the handler itself runs in. *)
Record World : Type := {
  loadAccounts : string → Completion (list Account);
  getTemplateBody : StackTemplateLocation → Completion string;
  getCredentialsForAccountAndRole : string → string → Completion Credentials;
  createOrUpdateStack : CloudFormation → CreateOrUpdateStackInput → Completion unit;
  callerAccountId : string;
}.

(** The value a [Promise<void>] resolves to. *)
Inductive Void : Type := undefined.

(** Lines 53-57. *)
Definition ignoredOnAccount (input : CreateStackInput) : bool :=
  truthy (ignoreAccountId input)
  && strict_eq (ignoreAccountId input) (accountId input)
  && negb (truthy (ignoreRegion input)).

Definition ignoredOnAccountAndRegion (input : CreateStackInput) : bool :=
  truthy (ignoreAccountId input)
  && truthy (ignoreRegion input)
  && strict_eq (ignoreAccountId input) (accountId input)
  && strict_eq (ignoreRegion input) (region input).

(** Lines 80-86. *)
Definition cloudFormationFor (w : World) (input : CreateStackInput) : Run Event CloudFormation :=
  if truthy (accountId input) && truthy (assumeRoleName input) then
    match accountId input, assumeRoleName input with
    | Some a, Some r =>
        credentials ←ᵣ call (GetCredentialsForAccountAndRole a r)
                             (getCredentialsForAccountAndRole w a r);
        run_ret (CloudFormationWith credentials (region input))
    | _, _ => run_ret CloudFormationAmbient (* not reached: a truthy value is a string *)
    end
  else run_ret CloudFormationAmbient.

Definition handler (w : World) (input : CreateStackInput) : Run Event Void :=
  emit (ConsoleLog (Text "Creating stack..."));;ᵣ
  emit (ConsoleLog (InputJson input));;ᵣ
  if ignoredOnAccount input then run_ret undefined
  else if ignoredOnAccountAndRegion input then run_ret undefined
  else
    emit (ConsoleDebug (Text "Creating stack template"));;ᵣ
    emit (ConsoleDebug (TemplateLocation (stackTemplate input)));;ᵣ
    accounts ←ᵣ call (LoadAccounts (parametersTableName input))
                      (loadAccounts w (parametersTableName input));
    emit (ConsoleLog (AccountList accounts));;ᵣ
    templateBody ←ᵣ call (GetTemplateBody (stackTemplate input))
                          (getTemplateBody w (stackTemplate input));
    cfn ←ᵣ cloudFormationFor w input;
    let req := {| StackName := stackName input;
                  TemplateBody := templateBody;
                  Capabilities := stackCapabilities input;
                  Parameters := objectToCloudFormationParameters (stackParameters input) |} in
    call (CreateOrUpdateStack cfn req) (createOrUpdateStack w cfn req);;ᵣ
    run_ret undefined.

(** *** Observations on a trace *)

Definition isConsole (e : Event) : bool :=
  match e with ConsoleLog _ | ConsoleDebug _ => true | _ => false end.
Definition isGetTemplateBody (e : Event) : bool :=
  match e with GetTemplateBody _ => true | _ => false end.
Definition isGetCredentials (e : Event) : bool :=
  match e with GetCredentialsForAccountAndRole _ _ => true | _ => false end.
Definition isCreateOrUpdateStack (e : Event) : bool :=
  match e with CreateOrUpdateStack _ _ => true | _ => false end.

(** The calls that leave the process, console output dropped. *)
Definition externalCalls (r : Run Event Void) : list Event :=
  filter (λ e, isConsole e = false) (trace r).

(** The requests for delegated credentials, the template resolutions and the
    create-or-update calls of a run. *)
Definition delegations (r : Run Event Void) : list Event :=
  filter (λ e, isGetCredentials e = true) (trace r).
Definition resolutions (r : Run Event Void) : list Event :=
  filter (λ e, isGetTemplateBody e = true) (trace r).
Definition submissions (r : Run Event Void) : list Event :=
  filter (λ e, isCreateOrUpdateStack e = true) (trace r).

(** The pre-check of lines 53-57 as one test. *)
Definition excluded (input : CreateStackInput) : bool :=
  ignoredOnAccount input || ignoredOnAccountAndRegion input.

(** A run that was short-circuited: fulfilled, and nothing left the process. *)
Definition skipped (r : Run Event Void) : Prop :=
  completion r = Fulfilled undefined ∧ externalCalls r = [].

(** A run that handed a create-or-update to the deployment-unit provider. *)
Definition submitted (r : Run Event Void) : Prop :=
  ∃ cfn req, CreateOrUpdateStack cfn req ∈ trace r.

(** A world in which the account directory, the template store and the
    trust provider answer every request. *)
Definition cooperative (w : World) : Prop :=
  (∀ table, ∃ accounts, loadAccounts w table = Fulfilled accounts)
  ∧ (∀ location, ∃ body, getTemplateBody w location = Fulfilled body)
  ∧ (∀ a r, ∃ credentials, getCredentialsForAccountAndRole w a r = Fulfilled credentials).

End Handler.

(** The outcomes the specification names for an upsert (section 4.4,
    [Result: { target, stackId, outcome }]). [create.ts] declares no such
    type: its handler is a [Promise<void>]. *)
Inductive UpsertOutcome : Type := Created | Updated | Unchanged | Skipped.

Arguments CreateStackInput : clear implicits.
Arguments World : clear implicits.
Arguments Event : clear implicits.
Arguments CloudFormation : clear implicits.
Arguments CreateOrUpdateStackInput : clear implicits.
Arguments ConsoleArg : clear implicits.
Arguments Void : clear implicits.

End CreateStack.

(** ** [step-1.ts]: public-access blocks and default EBS encryption keys *)

Module DefaultsStep1.

(** [Array.from(new Set(l))]: a [Set] keeps its members in the order of their
    first insertion, and [add] of a member already in it does nothing. *)
Definition setAdd (members : list string) (x : string) : list string :=
  if decide (x ∈ members) then members else members ++ [x].

Definition arrayFromSet (l : list string) : list string := foldl setAdd [] l.

(** [cdk.Aws.ACCOUNT_ID], the pseudo parameter of the stack being synthesised. *)
Definition AwsAccountId : string := "AWS::AccountId".

Section Step1.

(** Types that [step-1.ts] only imports: the stack handle of the registry,
    the account record and the VPC configuration (of which only [region]
    is read). *)
Context {AccountStack Account VpcConfig : Type}.
Variable vpcRegion : VpcConfig → string.

(** One entry of [config.getAccountConfigs()]: only the field read here. *)
Record AccountConfig : Type := {
  enableS3PublicAccess : option bool;    (* 'enable-s3-public-access' *)
}.

(** One entry of [config.getVpcConfigs()]. *)
Record ResolvedVpcConfig : Type := {
  accountKey : string;
  vpcConfig : VpcConfig;
  ouKey : option string;
}.

Record AcceleratorConfig : Type := {
  getAccountConfigs : list (string * AccountConfig);
  getVpcConfigs : list ResolvedVpcConfig;
}.

(** The registry of account stacks, reduced to the method used here. It
    answers [None] where the TypeScript method returns [undefined], and, as
    it caches the stacks it makes, the same for the same account and region
    throughout a run. *)
Record AccountStacks : Type := {
  tryGetOrCreateAccountStack : string → option string → option AccountStack;
}.

Record DefaultsStep1Props : Type := {
  acceleratorPrefix : string;
  accountStacks : AccountStacks;
  accounts : list Account;
  config : AcceleratorConfig;
}.

(** Imported helpers. *)
Variable getVpcSharedAccountKeys : list Account → VpcConfig → option string → list string.
Variable createEncryptionKeyName : string → string.

Record S3PublicAccessBlockProps : Type := {
  blockPublicAcls : bool;
  blockPublicPolicy : bool;
  ignorePublicAcls : bool;
  restrictPublicBuckets : bool;
}.

(** A [kms.Key] construct: its scope, construct id and properties. *)
Record KmsKey : Type := {
  keyScope : AccountStack;
  keyConstructId : string;
  keyAlias : string;
  keyDescription : string;
  enableKeyRotation : bool;
}.

Record PolicyStatement : Type := {
  effectAllow : bool;
  principalAccounts : list string;
  actions : list string;
  resources : list string;
}.

Inductive Event : Type :=
| ConsoleLog (message : string)
| ConsoleWarn (message : string)
| NewS3PublicAccessBlock (scope : AccountStack) (id : string) (props : S3PublicAccessBlockProps)
| NewKey (key : KmsKey)
| KeyAddToResourcePolicy (key : KmsKey) (statement : PolicyStatement)
| NewEbsDefaultEncryption (scope : AccountStack) (id : string) (key : KmsKey)
| NewCfnEbsKmsOutput (scope : AccountStack) (id : string) (encryptionKeyName : string) (key : KmsKey).

(** *** [blockS3PublicAccess], lines 53-71 *)

(** Lines 63-69: the four settings all follow the one flag. *)
Definition publicAccessBlock (blockPublicAccess : bool) : S3PublicAccessBlockProps :=
  {| blockPublicAcls := blockPublicAccess;
     blockPublicPolicy := blockPublicAccess;
     ignorePublicAcls := blockPublicAccess;
     restrictPublicBuckets := blockPublicAccess |}.

(** The body of the loop for one [[accountKey, accountConfig]] entry. *)
Definition blockS3PublicAccessFor (stacks : AccountStacks)
    (entry : string * AccountConfig) : list Event :=
  let '(accountKey, accountConfig) := entry in
  match tryGetOrCreateAccountStack stacks accountKey None with
  | None => [ConsoleWarn ("Cannot find account stack " +:+ accountKey)]
  | Some accountStack =>
      let blockPublicAccess := negb (truthy_flag (enableS3PublicAccess accountConfig)) in
      [NewS3PublicAccessBlock accountStack "PublicAccessBlock"
         (publicAccessBlock blockPublicAccess)]
  end.

Definition blockS3PublicAccess (props : DefaultsStep1Props) : list Event :=
  foldl (λ log entry, log ++ blockS3PublicAccessFor (accountStacks props) entry)
        [] (getAccountConfigs (config props)).

(** *** [createDefaultEbsEncryptionKey], lines 366-423 *)

(** [AccountRegionEbsEncryptionKeys]: account key, then region, to key.
    Account keys and regions are taken not to be names of members of
    [Object.prototype], which a lookup in a JavaScript object would find. *)
Abbreviation AccountRegionEbsEncryptionKeys := (gmap string (gmap string KmsKey)).

(** [keys[accountKey]?.[region]]; a key object is always truthy. *)
Definition lookupKey (keys : AccountRegionEbsEncryptionKeys)
    (accountKey region : string) : option KmsKey :=
  keys !! accountKey ≫= λ byRegion, byRegion !! region.

(** [keys[accountKey] = { ...keys[accountKey], [region]: key }]. *)
Definition recordKey (keys : AccountRegionEbsEncryptionKeys)
    (accountKey region : string) (key : KmsKey) : AccountRegionEbsEncryptionKeys :=
  <[accountKey := <[region := key]> (default ∅ (keys !! accountKey))]> keys.

(** The state the two nested loops thread: the result object, and the
    events so far, each with the [(localAccountKey, region)] of the
    iteration that emitted it. *)
Record EbsState : Type := {
  accountEbsEncryptionKeys : AccountRegionEbsEncryptionKeys;
  ebsLog : list (string * string * Event);
}.

Definition ebsEmit (st : EbsState) (localAccountKey region : string)
    (events : list Event) : list (string * string * Event) :=
  ebsLog st ++ ((λ e, (localAccountKey, region, e)) <$> events).

(** Lines 371-376: the accounts one VPC configuration reaches. *)
Definition accountKeysFor (accounts : list Account) (c : ResolvedVpcConfig) : list string :=
  let vpcSharedTo := getVpcSharedAccountKeys accounts (vpcConfig c) (ouKey c) in
  let vpcSharedTo := vpcSharedTo ++ [accountKey c] in
  arrayFromSet vpcSharedTo.

(** Lines 388-394: the key made in [accountStack]. *)
Definition ebsDefaultEncryptionKey (accountStack : AccountStack) : KmsKey :=
  let keyAlias := createEncryptionKeyName "EBS-Key" in
  {| keyScope := accountStack;
     keyConstructId := "EbsDefaultEncryptionKey";
     keyAlias := "alias/" +:+ keyAlias;
     keyDescription := "Key used to encrypt/decrypt EBS by default";
     enableKeyRotation := true |}.

(** Lines 388-419: what one iteration hands to the CDK, in program order. *)
Definition ebsResources (accountStack : AccountStack) : list Event :=
  let keyAlias := createEncryptionKeyName "EBS-Key" in
  let key := ebsDefaultEncryptionKey accountStack in
  [NewKey key;
   KeyAddToResourcePolicy key
     {| effectAllow := true;
        principalAccounts := [AwsAccountId];
        actions := ["kms:*"];
        resources := ["*"] |};
   NewEbsDefaultEncryption accountStack "EbsDefaultEncryptionSet" key;
   NewCfnEbsKmsOutput accountStack "EbsEncryptionKey" keyAlias key].

(** Lines 377-419: the body of the inner loop. *)
Definition ebsForAccount (stacks : AccountStacks) (region : string)
    (st : EbsState) (localAccountKey : string) : EbsState :=
  match lookupKey (accountEbsEncryptionKeys st) localAccountKey region with
  | Some _ =>
      {| accountEbsEncryptionKeys := accountEbsEncryptionKeys st;
         ebsLog := ebsEmit st localAccountKey region
           [ConsoleLog ("EBSEncryptionKey is already created in account "
                        +:+ localAccountKey +:+ " and region " +:+ region)] |}
  | None =>
      match tryGetOrCreateAccountStack stacks localAccountKey (Some region) with
      | None =>
          {| accountEbsEncryptionKeys := accountEbsEncryptionKeys st;
             ebsLog := ebsEmit st localAccountKey region
               [ConsoleWarn ("Cannot find account stack " +:+ localAccountKey)] |}
      | Some accountStack =>
          {| accountEbsEncryptionKeys :=
               recordKey (accountEbsEncryptionKeys st) localAccountKey region
                         (ebsDefaultEncryptionKey accountStack);
             ebsLog := ebsEmit st localAccountKey region (ebsResources accountStack) |}
      end
  end.

(** Lines 371-421: the body of the outer loop. *)
Definition ebsForVpc (stacks : AccountStacks) (accounts : list Account)
    (st : EbsState) (c : ResolvedVpcConfig) : EbsState :=
  let region := vpcRegion (vpcConfig c) in
  foldl (ebsForAccount stacks region) st (accountKeysFor accounts c).

Definition createDefaultEbsEncryptionKey (props : DefaultsStep1Props) : EbsState :=
  foldl (ebsForVpc (accountStacks props) (accounts props))
        {| accountEbsEncryptionKeys := ∅; ebsLog := [] |}
        (getVpcConfigs (config props)).

(** The requests for a key, in the order the loops make them. *)
Definition ebsRequests (props : DefaultsStep1Props) : list (string * string) :=
  c ← getVpcConfigs (config props);
  (λ a, (a, vpcRegion (vpcConfig c))) <$> accountKeysFor (accounts props) c.

(** One request served: the body of the inner loop, on a pair. *)
Definition ebsServe (stacks : AccountStacks) (st : EbsState)
    (request : string * string) : EbsState :=
  ebsForAccount stacks request.2 st request.1.

(** An event that hands a construct to the CDK, as opposed to console output. *)
Definition isResource (e : Event) : bool :=
  match e with
  | ConsoleLog _ | ConsoleWarn _ => false
  | _ => true
  end.

(** The keys created for one target, in the order of creation. *)
Definition keysCreatedFor (log : list (string * string * Event))
    (localAccountKey region : string) : list KmsKey :=
  omap (λ entry, match entry with
                 | (a, r, NewKey key) =>
                     if decide ((a, r) = (localAccountKey, region)) then Some key else None
                 | _ => None
                 end) log.

(** The invariant of the two loops, for the registry [stacks]: the keys
    created for a target are the key recorded for it; a recorded key is the
    key of the target's stack, and all its resources were handed over; and
    only targets with a recorded key were handed resources. *)
Definition consistent (stacks : AccountStacks) (st : EbsState) : Prop :=
  (∀ a r, keysCreatedFor (ebsLog st) a r
          = option_list (lookupKey (accountEbsEncryptionKeys st) a r))
  ∧ (∀ a r key,
       lookupKey (accountEbsEncryptionKeys st) a r = Some key →
       ∃ accountStack,
         tryGetOrCreateAccountStack stacks a (Some r) = Some accountStack
         ∧ key = ebsDefaultEncryptionKey accountStack
         ∧ ∀ e, e ∈ ebsResources accountStack → (a, r, e) ∈ ebsLog st)
  ∧ (∀ a r e,
       (a, r, e) ∈ ebsLog st → isResource e = true →
       is_Some (lookupKey (accountEbsEncryptionKeys st) a r)).

(** What the loops owe a target once one of their iterations has reached
    it: a recorded key, or a warning that the target has no stack. *)
Definition served (stacks : AccountStacks) (st : EbsState) (a r : string) : Prop :=
  is_Some (lookupKey (accountEbsEncryptionKeys st) a r)
  ∨ (tryGetOrCreateAccountStack stacks a (Some r) = None
     ∧ (a, r, ConsoleWarn ("Cannot find account stack " +:+ a)) ∈ ebsLog st).

End Step1.

Arguments AccountConfig : clear implicits.
Arguments ResolvedVpcConfig : clear implicits.
Arguments AcceleratorConfig : clear implicits.
Arguments AccountStacks : clear implicits.
Arguments DefaultsStep1Props : clear implicits.
Arguments KmsKey : clear implicits.
Arguments Event : clear implicits.
Arguments EbsState : clear implicits.
Arguments S3PublicAccessBlockProps : clear implicits.
Arguments PolicyStatement : clear implicits.

End DefaultsStep1.

(** ** The [Ec2AcceptVpcEndpointConnection] custom resource *)

Module AcceptVpcEndpoint.

Definition resourceType : string := "Custom::ModifyVpcEndpointServicePermissions".

(** The package whose directory is the code asset of the Lambda function. *)
Definition runtimePackage : string :=
  "@aws-accelerator/custom-resource-accept-vpc-endpoint-connection-runtime".

Record Ec2AcceptVpcEndpointConnectionProps : Type := {
  serviceId : string;
  endpoints : list string;
  roleArn : string;
}.

(** A construct of the tree, addressed by its stack ([cdk.Stack.of]) and by
    the path of construct ids from the stack down to it; the stack itself has
    the empty path. *)
Record ConstructRef : Type := {
  stackOf : string;
  pathOf : list string;
}.

Record FunctionProps : Type := {
  runtime : string;
  code : string;
  handler : string;
  role : string;
  timeoutMinutes : nat;
}.

Inductive Construct : Type :=
| Function (props : FunctionProps)
| ImportedRole (arn : string)
| CustomResource (type : string) (serviceToken : option string)
                 (properties : Ec2AcceptVpcEndpointConnectionProps)
| AcceptVpcEndpointConnection
| Foreign (kind : string).

(** The construct tree of the app: which construct sits at which path. *)
Abbreviation App := (gmap (string * list string) Construct).

Inductive Event : Type :=
| Created (ref : ConstructRef) (c : Construct).

(** A step of synthesis: it reads and extends the tree, records what it
    created, and may throw. *)
Definition Cdk (A : Type) : Type := App → App * Run Event A.

Definition cdk_ret {A} (a : A) : Cdk A := λ app, (app, run_ret a).

Definition cdk_bind {A B} (m : Cdk A) (k : A → Cdk B) : Cdk B := λ app,
  let '(app1, r1) := m app in
  match completion r1 with
  | Fulfilled a =>
      let '(app2, r2) := k a app1 in
      (app2, MkRun (trace r1 ++ trace r2) (completion r2))
  | Rejected e => (app1, MkRun (trace r1) (Rejected e))
  end.

Declare Scope cdk_scope.
Delimit Scope cdk_scope with cdk.
Notation "x ←ₛ m ; k" := (cdk_bind m (λ x, k))
  (at level 100, m at next level, k at level 200, right associativity) : cdk_scope.
Notation "m ;;ₛ k" := (cdk_bind m (λ _, k))
  (at level 100, k at level 200, right associativity) : cdk_scope.
Local Open Scope cdk_scope.

Definition childRef (scope : ConstructRef) (id : string) : ConstructRef :=
  {| stackOf := stackOf scope; pathOf := pathOf scope ++ [id] |}.

(** [cdk.Stack.of(c)]. *)
Definition stackRef (c : ConstructRef) : ConstructRef :=
  {| stackOf := stackOf c; pathOf := [] |}.

(** [scope.node.tryFindChild(id)]. *)
Definition tryFindChild (app : App) (scope : ConstructRef) (id : string) : option Construct :=
  app !! (stackOf scope, pathOf scope ++ [id]).

(** [new C(scope, id, ...)]: the construct registers itself as child [id] of
    [scope]; the CDK throws when [scope] already has a child of that id. *)
Definition new (scope : ConstructRef) (id : string) (c : Construct) : Cdk ConstructRef := λ app,
  match tryFindChild app scope id with
  | Some _ =>
      (app, MkRun [] (Rejected ("There is already a Construct with name '" +:+ id +:+ "'")))
  | None =>
      (<[(stackOf scope, pathOf scope ++ [id]) := c]> app,
       MkRun [Created (childRef scope id) c] (Fulfilled (childRef scope id)))
  end.

(** [fn.functionArn] of whatever the getter handed back as a
    [lambda.Function]: only a function has the attribute. *)
Definition functionArn (fn : ConstructRef * Construct) : option string :=
  match fn.2 with
  | Function _ => Some (stackOf fn.1 +:+ "/" +:+ String.concat "/" (pathOf fn.1) +:+ ".Arn")
  | _ => None
  end.

Definition constructName : string := resourceType +:+ "Lambda".

(** Lines 50-68: the [lambdaFunction] getter of the construct [this], whose
    [role] field holds the role imported from [roleArn]. *)
Definition lambdaFunction (this : ConstructRef) (roleArn : string)
    : Cdk (ConstructRef * Construct) := λ app,
  let stack := stackRef this in
  match tryFindChild app stack constructName with
  | Some existing => cdk_ret (childRef stack constructName, existing) app
  | None =>
      let fn := Function {| runtime := "nodejs14.x";
                            code := runtimePackage;
                            handler := "index.handler";
                            role := roleArn;
                            timeoutMinutes := 15 |} in
      (ref ←ₛ new stack constructName fn; cdk_ret (ref, fn)) app
  end.

(** Lines 36-48: the constructor. The arguments of [new cdk.CustomResource]
    are evaluated, and with them the getter, before the resource is made. *)
Definition newEc2AcceptVpcEndpointConnection (scope : ConstructRef) (id : string)
    (props : Ec2AcceptVpcEndpointConnectionProps) : Cdk ConstructRef :=
  this ←ₛ new scope id AcceptVpcEndpointConnection;
  new this (resourceType +:+ "Role") (ImportedRole (roleArn props));;ₛ
  fn ←ₛ lambdaFunction this (roleArn props);
  new this "Resource" (CustomResource resourceType (functionArn fn) props);;ₛ
  cdk_ret this.

(** A program that makes several of these custom resources, one after the
    other; an exception ends it. *)
Record Request : Type := {
  reqScope : ConstructRef;
  reqId : string;
  reqProps : Ec2AcceptVpcEndpointConnectionProps;
}.

Fixpoint constructAll (requests : list Request) : Cdk unit :=
  match requests with
  | [] => cdk_ret tt
  | q :: rest =>
      newEc2AcceptVpcEndpointConnection (reqScope q) (reqId q) (reqProps q);;ₛ
      constructAll rest
  end.

(** The backing Lambda functions created in [stack]. *)
Definition functionsCreatedIn (stack : string) (events : list Event) : list ConstructRef :=
  omap (λ e, match e with
             | Created ref (Function _) =>
                 if decide (stackOf ref = stack) then Some ref else None
             | _ => None
             end) events.

(** The service tokens of the custom resources created in [stack]. *)
Definition serviceTokensIn (stack : string) (events : list Event) : list (option string) :=
  omap (λ e, match e with
             | Created ref (CustomResource _ token _) =>
                 if decide (stackOf ref = stack) then Some token else None
             | _ => None
             end) events.

(** *** What every step of synthesis respects *)

Definition refKey (ref : ConstructRef) : string * list string :=
  (stackOf ref, pathOf ref).

Definition createdRefs (events : list Event) : list ConstructRef :=
  (λ e, match e with Created ref _ => ref end) <$> events.

(** A step never replaces a construct; what it records as created was not
    in the tree before and is in it after; and it creates nothing twice. *)
Definition orderly {A} (m : Cdk A) : Prop :=
  ∀ app,
    (∀ k x, app !! k = Some x → (m app).1 !! k = Some x)
    ∧ (∀ ref c, Created ref c ∈ trace (m app).2 →
                app !! refKey ref = None ∧ (m app).1 !! refKey ref = Some c)
    ∧ NoDup (createdRefs (trace (m app).2)).

(** A function is only ever created as the child [constructName] of a
    stack, and the service token of a custom resource is the ARN of whatever
    sits under that name in the resource's stack. *)
Definition backedAt {A} (m : Cdk A) (app : App) : Prop :=
  ∀ ref c,
    Created ref c ∈ trace (m app).2 →
    match c with
    | Function _ => pathOf ref = [constructName]
    | CustomResource _ token _ =>
        ∃ x, (m app).1 !! (stackOf ref, [constructName]) = Some x
             ∧ token = functionArn ({| stackOf := stackOf ref; pathOf := [constructName] |}, x)
    | _ => True
    end.

Definition backed {A} (m : Cdk A) : Prop := ∀ app, backedAt m app.

End AcceptVpcEndpoint.

(** ** [metadata-collection/index.ts]: the two [createMetadataService] *)

Module MetadataCollection.

Record IamRoleConfig : Type := {
  role : string;
  metaDataReadOnlyAccess : option bool;    (* 'meta-data-read-only-access' *)
}.

Record IamConfig : Type := {
  roles : option (list IamRoleConfig);
}.

(** One entry of [config.getIamConfigs()]. *)
Record ResolvedIamConfig : Type := {
  accountKey : string;
  iam : IamConfig;
}.

Inductive Principal : Type :=
| AnyPrincipal
| ArnPrincipal (arn : string).

Record PolicyStatement : Type := {
  actions : list string;
  principals : list Principal;
  resources : list string;
  conditions : list (string * list (string * string));
  deny : bool;
}.

(** The statements handed to [encryptionKey.addToResourcePolicy] and to
    [bucket.addToResourcePolicy], in the order of the calls. The constructs
    made after them (role, function, rule, managed policies) call neither
    method and are left out. *)
Record ResourcePolicies : Type := {
  keyPolicy : list PolicyStatement;
  bucketPolicy : list PolicyStatement;
}.

(** Tokens the CDK resolves at deployment. *)
Definition bucketArn : string := "MetadataBucket.Arn".
Definition bucketObjectsArn : string := "MetadataBucket.Arn/*".
Definition organizationId : string := "MetadataOrganizations.OrganizationId".

(** [`${x}`] on a [string | undefined]. *)
Definition interpolate (x : option string) : string := default "undefined" x.

(** [if (a)] on an array: an object, truthy whatever its length. *)
Definition truthy_array {A} (a : list A) : bool := true.

Section Service.

Context {Account : Type}.
(** [getAccountId], imported from the common outputs package. *)
Variable getAccountId : list Account → string → option string.

Record MetadataServiceProps : Type := {
  acceleratorPrefix : string;
  accounts : list Account;
  getIamConfigs : list ResolvedIamConfig;
}.

(** Lines 63-72 and 304-313, the same in both definitions. *)
Definition metadataReadOnlyRoles (props : MetadataServiceProps) : list Principal :=
  c ← getIamConfigs props;
  let accountId := getAccountId (accounts props) (accountKey c) in
  r ← default [] (roles (iam c));
  if truthy_flag (metaDataReadOnlyAccess r)
  then [ArnPrincipal ("arn:aws:iam::" +:+ interpolate accountId +:+ ":role/" +:+ role r)]
  else [].

Definition readOnlyKeyStatement (readers : list Principal) : PolicyStatement :=
  {| actions := ["kms:Decrypt"; "kms:DescribeKey"; "kms:GenerateDataKey"];
     principals := readers;
     resources := ["*"];
     conditions := [];
     deny := false |}.

Definition readOnlyBucketStatement (readers : list Principal) : PolicyStatement :=
  {| actions := ["s3:GetObject"; "s3:ListBucket"];
     principals := readers;
     resources := [bucketArn; bucketObjectsArn];
     conditions := [];
     deny := false |}.

Definition acceleratorRoleConditions (prefix : string) : list (string * list (string * string)) :=
  [("StringEquals", [("aws:PrincipalOrgID", organizationId)]);
   ("ArnLike", [("aws:PrincipalARN", "arn:aws:iam::*:role/" +:+ prefix +:+ "*")])].

Definition bucketReadStatement (prefix : string) : PolicyStatement :=
  {| actions := ["s3:Get*"; "s3:List*"];
     principals := [AnyPrincipal];
     resources := [bucketArn; bucketObjectsArn];
     conditions := acceleratorRoleConditions prefix;
     deny := false |}.

Definition httpsOnlyStatement : PolicyStatement :=
  {| actions := ["s3:*"];
     principals := [AnyPrincipal];
     resources := [bucketArn; bucketObjectsArn];
     conditions := [("Bool", [("aws:SecureTransport", "false")])];
     deny := true |}.

(** The first definition, lines 27-248. *)
Definition createMetadataService (props : MetadataServiceProps) : ResourcePolicies :=
  let metadataReadOnlyRoles := metadataReadOnlyRoles props in
  let guarded (s : PolicyStatement) :=
    if bool_decide (0 < length metadataReadOnlyRoles) then [s] else [] in
  {| keyPolicy :=
       guarded (readOnlyKeyStatement metadataReadOnlyRoles)
       ++ [{| actions := ["kms:Decrypt"; "kms:GenerateDataKey"];
              principals := [AnyPrincipal];
              resources := ["*"];
              conditions := acceleratorRoleConditions (acceleratorPrefix props);
              deny := false |}];
     bucketPolicy :=
       guarded (readOnlyBucketStatement metadataReadOnlyRoles)
       ++ [bucketReadStatement (acceleratorPrefix props); httpsOnlyStatement] |}.

(** The second, older definition, lines 274-443. *)
Definition createMetadataService_older (props : MetadataServiceProps) : ResourcePolicies :=
  let metadataReadOnlyRoles := metadataReadOnlyRoles props in
  let guarded (s : PolicyStatement) :=
    if truthy_array metadataReadOnlyRoles then [s] else [] in
  {| keyPolicy :=
       guarded (readOnlyKeyStatement metadataReadOnlyRoles)
       ++ [{| actions := ["kms:Decrypt"];
              principals := [AnyPrincipal];
              resources := ["*"];
              conditions := acceleratorRoleConditions (acceleratorPrefix props);
              deny := false |}];
     bucketPolicy :=
       guarded (readOnlyBucketStatement metadataReadOnlyRoles)
       ++ [bucketReadStatement (acceleratorPrefix props); httpsOnlyStatement] |}.

(** Some role of the configuration asks for read-only access. *)
Definition hasReadOnlyRole (props : MetadataServiceProps) : Prop :=
  ∃ c r, c ∈ getIamConfigs props
         ∧ r ∈ default [] (roles (iam c))
         ∧ truthy_flag (metaDataReadOnlyAccess r) = true.

(** A statement that names a role as principal. *)
Definition namesRolePrincipal (s : PolicyStatement) : Prop :=
  ∃ arn, ArnPrincipal arn ∈ principals s.

End Service.

Arguments MetadataServiceProps : clear implicits.

End MetadataCollection.

(** ** Concrete configurations *)

Module Scenarios.
Import CreateStack.

(** The handler with template locations, accounts and credentials read as
    strings, and stack parameters passed on as they are. *)
Abbreviation Input := (CreateStackInput string).
Abbreviation TheWorld := (World string string string (list (string * string))).

Definition run (w : TheWorld) (input : Input) : Run (Event string string string (list (string * string))) Void :=
  handler (λ parameters, parameters) w input.

(** Every collaborator answers; the handler runs in account 111111111111. *)
Definition friendly : TheWorld :=
  {| loadAccounts := λ _, Fulfilled ["ops"; "shared"];
     getTemplateBody := λ location, Fulfilled ("body of " +:+ location);
     getCredentialsForAccountAndRole := λ a r, Fulfilled (a +:+ "/" +:+ r);
     createOrUpdateStack := λ _ _, Fulfilled tt;
     callerAccountId := "111111111111" |}.

(** The template store has lost the template. *)
Definition templateMissing : TheWorld :=
  {| loadAccounts := λ _, Fulfilled ["ops"; "shared"];
     getTemplateBody := λ _, Rejected "NoSuchKey";
     getCredentialsForAccountAndRole := λ a r, Fulfilled (a +:+ "/" +:+ r);
     createOrUpdateStack := λ _ _, Fulfilled tt;
     callerAccountId := "111111111111" |}.

Definition request (account role region ignoreAccount ignoreReg : option string) : Input :=
  {| stackName := "PBMMAccel-Baseline";
     stackCapabilities := ["CAPABILITY_NAMED_IAM"];
     stackParameters := [("Prefix", "PBMMAccel-")];
     stackTemplate := "templates/baseline.yml";
     accountId := account;
     assumeRoleName := role;
     region := region;
     ignoreAccountId := ignoreAccount;
     ignoreRegion := ignoreReg;
     parametersTableName := "PBMMAccel-Parameters" |}.

(** Scenario B of the spec: account 222222222222 is ignored in every region. *)
Definition toIgnoredAccount : Input :=
  request (Some "222222222222") (Some "PipelineRole") (Some "ca-central-1")
          (Some "222222222222") None.

(** The same account, ignored in one region only, addressed in another. *)
Definition toIgnoredAccountOtherRegion : Input :=
  request (Some "222222222222") (Some "PipelineRole") (Some "us-east-1")
          (Some "222222222222") (Some "ca-central-1").

Definition toIgnoredAccountAndRegion : Input :=
  request (Some "222222222222") (Some "PipelineRole") (Some "ca-central-1")
          (Some "222222222222") (Some "ca-central-1").

(** A request that names no account, although one is ignored. *)
Definition withoutAccount : Input :=
  request None None (Some "ca-central-1") (Some "222222222222") None.

(** A request that names no region, although a region is ignored. *)
Definition withoutRegion : Input :=
  request (Some "222222222222") (Some "PipelineRole") None
          (Some "222222222222") (Some "ca-central-1").

(** A request into the account the handler itself runs in. *)
Definition toOwnAccount : Input :=
  request (Some "111111111111") (Some "PipelineRole") (Some "ca-central-1") None None.

(** A request into another account. *)
Definition toOtherAccount : Input :=
  request (Some "333333333333") (Some "PipelineRole") (Some "ca-central-1") None None.

End Scenarios.

Module LandingZone.
  Import DefaultsStep1.

(** Stacks are named after their account and region; the home region is
    ca-central-1; the account [sandbox] is not known to the registry. *)
Definition registry : AccountStacks string :=
  {| tryGetOrCreateAccountStack := λ accountKey region,
       if decide (accountKey = "sandbox") then None
       else Some (accountKey +:+ "/" +:+ default "ca-central-1" region) |}.

(** Every VPC is shared with [dev] (through two subnets), [sandbox] and [test]. *)
Definition sharing (accounts : list string) (vpc : string) (ouKey : option string)
    : list string :=
  ["dev"; "sandbox"; "dev"; "test"].

Definition keyName (name : string) : string := "PBMMAccel-" +:+ name.

(** Two VPCs of the same region, owned by [shared-network] and [perimeter];
    a VPC configuration is read as its region. *)
Definition props : DefaultsStep1Props string string string :=
  {| acceleratorPrefix := "PBMMAccel-";
     accountStacks := registry;
     accounts := ["shared-network"; "perimeter"; "dev"; "test"];
     config :=
       {| getAccountConfigs :=
            [("shared-network", {| enableS3PublicAccess := None |});
             ("sandbox", {| enableS3PublicAccess := Some false |});
             ("dev", {| enableS3PublicAccess := Some true |})];
          getVpcConfigs :=
            [{| accountKey := "shared-network"; vpcConfig := "ca-central-1"; ouKey := None |};
             {| accountKey := "perimeter"; vpcConfig := "ca-central-1"; ouKey := None |}] |} |}.

Definition sharedNetworkVpc : ResolvedVpcConfig string :=
  {| accountKey := "shared-network"; vpcConfig := "ca-central-1"; ouKey := None |}.

Definition ebsKeys : EbsState string :=
  createDefaultEbsEncryptionKey (λ vpc, vpc) sharing keyName props.

End LandingZone.

Module EndpointStacks.
  Import AcceptVpcEndpoint.

Definition accept (stack : string) (scope : list string) (id service : string) : Request :=
  {| reqScope := {| stackOf := stack; pathOf := scope |};
     reqId := id;
     reqProps := {| serviceId := service;
                    endpoints := ["vpce-1"];
                    roleArn := "arn:aws:iam::111111111111:role/" +:+ id |} |}.

(** Three custom resources in the stack [Perimeter], at two depths, and one
    in the stack [SharedNetwork]. *)
Definition program : list Request :=
  [accept "Perimeter" [] "AcceptNlb" "vpce-svc-1";
   accept "Perimeter" ["Firewall"] "AcceptMgmt" "vpce-svc-2";
   accept "SharedNetwork" [] "AcceptNlb" "vpce-svc-3";
   accept "Perimeter" [] "AcceptProxy" "vpce-svc-4"].

Definition synthesis : gmap (string * list string) Construct * Run Event unit :=
  constructAll program ∅.

End EndpointStacks.

Module MetadataConfigs.
  Import MetadataCollection.

Definition accountIds (accounts : list (string * string)) (accountKey : string)
    : option string :=
  (λ found, found.2.2) <$> list_find (λ account, account.1 = accountKey) accounts.

Definition directory : list (string * string) :=
  [("ops", "111111111111"); ("security", "222222222222")].

(** One role of the security account reads the metadata. *)
Definition withReader : MetadataServiceProps (string * string) :=
  {| acceleratorPrefix := "PBMMAccel-";
     accounts := directory;
     getIamConfigs :=
       [{| accountKey := "ops";
           iam := {| roles := Some [{| role := "Admin"; metaDataReadOnlyAccess := None |}] |} |};
        {| accountKey := "security";
           iam := {| roles := Some [{| role := "Auditor";
                                       metaDataReadOnlyAccess := Some true |}] |} |}] |}.

(** No role reads the metadata. *)
Definition withoutReader : MetadataServiceProps (string * string) :=
  {| acceleratorPrefix := "PBMMAccel-";
     accounts := directory;
     getIamConfigs :=
       [{| accountKey := "ops";
           iam := {| roles := Some [{| role := "Admin";
                                       metaDataReadOnlyAccess := Some false |}] |} |};
        {| accountKey := "security"; iam := {| roles := None |} |}] |}.

End MetadataConfigs.

(** ** Further observations on the create-stack handler *)

Module CreateStackCalls.
  Import CreateStack.

Section Calls.
Context {StackTemplateLocation Account Credentials CfnParameters : Type}.

(** The stage of the handler an event belongs to: console output, account
    directory, template store, trust provider, deployment-unit provider. *)
Definition phase (e : Event StackTemplateLocation Account Credentials CfnParameters) : nat :=
  match e with
  | ConsoleLog _ | ConsoleDebug _ => 0
  | LoadAccounts _ => 1
  | GetTemplateBody _ => 2
  | GetCredentialsForAccountAndRole _ _ => 3
  | CreateOrUpdateStack _ _ => 4
  end.

(** The same world with another account directory. *)
Definition withDirectory
    (w : World StackTemplateLocation Account Credentials CfnParameters)
    (directory : string → Completion (list Account))
    : World StackTemplateLocation Account Credentials CfnParameters :=
  {| loadAccounts := directory;
     getTemplateBody := getTemplateBody w;
     getCredentialsForAccountAndRole := getCredentialsForAccountAndRole w;
     createOrUpdateStack := createOrUpdateStack w;
     callerAccountId := callerAccountId w |}.

(** The same request for another region. *)
Definition withRegion (input : CreateStackInput StackTemplateLocation)
    (r : option string) : CreateStackInput StackTemplateLocation :=
  {| stackName := stackName input;
     stackCapabilities := stackCapabilities input;
     stackParameters := stackParameters input;
     stackTemplate := stackTemplate input;
     accountId := accountId input;
     assumeRoleName := assumeRoleName input;
     region := r;
     ignoreAccountId := ignoreAccountId input;
     ignoreRegion := ignoreRegion input;
     parametersTableName := parametersTableName input |}.

(** What the promise of a run settles to once the provider has answered. *)
Definition verdict (answer : Completion unit) : Completion Void :=
  match answer with
  | Fulfilled _ => Fulfilled undefined
  | Rejected e => Rejected e
  end.

End Calls.
End CreateStackCalls.

(** ** [metadata-collection/index.ts]: the managed policies of the readers *)

Module MetadataPolicies.
  Import MetadataCollection.

(** The statements of lines 228-240. *)
Record ManagedStatement : Type := {
  allowedActions : list string;
  onResources : list string;
}.

Section Loop.
Context {AccountStack StackOutput : Type} `{EqDecision AccountStack}.

(** [IamRoleNameOutputFinder.tryFindOneByName] with [roleKey: 'IamAccountRole']:
    the ARN of the role output it finds, if any. *)
Variable tryFindOneByName : list StackOutput → string → string → option string.
(** [accountStacks.tryGetOrCreateAccountStack]. *)
Variable tryGetOrCreateAccountStack : string → option string → option AccountStack.
Variable createPolicyName : string → string.

Inductive Event : Type :=
| RequestAccountStack (accountKey region : string)
| NewManagedPolicy (scope : AccountStack) (id managedPolicyName description : string)
| AddStatements (scope : AccountStack) (id : string) (statements : list ManagedStatement)
| RoleFromRoleArn (scope : AccountStack) (id roleArn : string)
| AttachToRole (scope : AccountStack) (policyId roleId : string).

(** The construct ids taken so far, per stack. *)
Abbreviation Taken := (list (AccountStack * string)).

(** A step of synthesis over the ids taken: it may take more, records what
    it does, and may throw. *)
Definition Synth (A : Type) : Type := Taken → Taken * Run Event A.

Definition synth_ret {A} (a : A) : Synth A := λ taken, (taken, run_ret a).

Definition synth_bind {A B} (m : Synth A) (k : A → Synth B) : Synth B := λ taken,
  match completion (m taken).2 with
  | Fulfilled a =>
      ((k a (m taken).1).1,
       MkRun (trace (m taken).2 ++ trace (k a (m taken).1).2)
             (completion (k a (m taken).1).2))
  | Rejected e => ((m taken).1, MkRun (trace (m taken).2) (Rejected e))
  end.

Definition synth_emit (e : Event) : Synth unit := λ taken, (taken, emit e).

(** A construct registers under its id in its scope; the CDK throws when
    the scope has a child of that id already. *)
Definition register (scope : AccountStack) (id : string) (e : Event) : Synth unit :=
  λ taken,
    if decide ((scope, id) ∈ taken)
    then (taken, MkRun [] (Rejected ("There is already a Construct with name '" +:+ id +:+ "'")))
    else ((scope, id) :: taken, emit e).

(** [for (const x of l) body(x)]. *)
Fixpoint forEach {A} (body : A → Synth unit) (l : list A) : Synth unit :=
  match l with
  | [] => synth_ret tt
  | x :: rest => synth_bind (body x) (λ _, forEach body rest)
  end.

Definition metadataStatements (bucketName : string) : list ManagedStatement :=
  [{| allowedActions := ["kms:Decrypt"; "kms:DescribeKey"; "kms:GenerateDataKey"];
      onResources := ["*"] |};
   {| allowedActions := ["s3:GetObject"; "s3:ListBucket"];
      onResources := ["arn:aws:s3:::" +:+ bucketName;
                      "arn:aws:s3:::" +:+ bucketName +:+ "/*"] |}].

(** Lines 221-244: the body of the inner loop, for one role output. *)
Definition policyFor (stackToUpdate : AccountStack) (accountKey bucketName : string)
    (output : option string) : Synth unit :=
  let policyName := createPolicyName "MetadataReadOnlyPolicy" in
  let id := "IAM-Metadata-Policy-" +:+ accountKey in
  synth_bind (register stackToUpdate id
                (NewManagedPolicy stackToUpdate id policyName policyName)) (λ _,
  synth_bind (synth_emit (AddStatements stackToUpdate id (metadataStatements bucketName))) (λ _,
  match output with
  | Some roleArn =>
      synth_bind (register stackToUpdate "metadataRole"
                    (RoleFromRoleArn stackToUpdate "metadataRole" roleArn)) (λ _,
      synth_emit (AttachToRole stackToUpdate id "metadataRole"))
  | None => synth_ret tt
  end)).

(** Lines 203-214: the outputs of the roles that read the metadata;
    [None] when the account configures no roles at all. *)
Definition roleOutputsOf (outputs : list StackOutput) (c : ResolvedIamConfig)
    : option (list (option string)) :=
  match roles (iam c) with
  | None => None
  | Some configured =>
      let metadataroles :=
        filter (λ r, truthy_flag (metaDataReadOnlyAccess r) = true) configured in
      Some ((λ r, tryFindOneByName outputs (accountKey c) (role r)) <$> metadataroles)
  end.

(** Lines 201-246: the body of the outer loop. *)
Definition policiesFor (outputs : list StackOutput) (logRegion bucketName : string)
    (c : ResolvedIamConfig) : Synth unit :=
  let roleOutputs := roleOutputsOf outputs c in
  synth_bind (synth_emit (RequestAccountStack (accountKey c) logRegion)) (λ _,
  match roleOutputs, tryGetOrCreateAccountStack (accountKey c) (Some logRegion) with
  | Some (output :: more), Some stackToUpdate =>
      forEach (policyFor stackToUpdate (accountKey c) bucketName) (output :: more)
  | _, _ => synth_ret tt
  end).

(** Lines 200-246 of the first [createMetadataService]. *)
Definition attachReaderPolicies (outputs : list StackOutput) (logRegion bucketName : string)
    (iamConfigs : list ResolvedIamConfig) : Synth unit :=
  forEach (policiesFor outputs logRegion bucketName) iamConfigs.

(** The requests to the registry, and the policies made, in a trace. *)
Definition stackRequests (events : list Event) : list (string * string) :=
  omap (λ e, match e with RequestAccountStack k r => Some (k, r) | _ => None end) events.

Definition policiesMade (events : list Event) : list (AccountStack * string) :=
  omap (λ e, match e with NewManagedPolicy s id _ _ => Some (s, id) | _ => None end) events.

(** The roles of a configuration that read the metadata. *)
Definition readersOf (c : ResolvedIamConfig) : list IamRoleConfig :=
  filter (λ r, truthy_flag (metaDataReadOnlyAccess r) = true) (default [] (roles (iam c))).

(** The accounts that are owed a policy: those with a reader and a stack in
    the log region, each with the id its policy is made under. *)
Definition policyTargets (logRegion : string) (iamConfigs : list ResolvedIamConfig)
    : list (AccountStack * string) :=
  omap (λ c, match readersOf c, tryGetOrCreateAccountStack (accountKey c) (Some logRegion) with
             | _ :: _, Some stack => Some (stack, "IAM-Metadata-Policy-" +:+ accountKey c)
             | _, _ => None
             end) iamConfigs.

End Loop.

Arguments Event : clear implicits.

End MetadataPolicies.

(** ** Further concrete configurations *)

Module MoreScenarios.
  Import CreateStack.

(** The account directory cannot be read. *)
Definition directoryDown : Scenarios.TheWorld :=
  {| loadAccounts := λ _, Rejected "ResourceNotFoundException";
     getTemplateBody := λ location, Fulfilled ("body of " +:+ location);
     getCredentialsForAccountAndRole := λ a r, Fulfilled (a +:+ "/" +:+ r);
     createOrUpdateStack := λ _ _, Fulfilled tt;
     callerAccountId := "111111111111" |}.

(** Two directories with different accounts. *)
Definition smallDirectory (table : string) : Completion (list string) :=
  Fulfilled ["ops"].
Definition largeDirectory (table : string) : Completion (list string) :=
  Fulfilled ["ops"; "shared"; "dev"; "test"].

End MoreScenarios.

Module LandingZoneVariants.
  Import DefaultsStep1.

(** The landing zone with its VPCs in the other order, the first one twice. *)
Definition reordered : DefaultsStep1Props string string string :=
  {| acceleratorPrefix := "PBMMAccel-";
     accountStacks := LandingZone.registry;
     accounts := ["shared-network"; "perimeter"; "dev"; "test"];
     config :=
       {| getAccountConfigs := [];
          getVpcConfigs :=
            [{| accountKey := "perimeter"; vpcConfig := "ca-central-1"; ouKey := None |};
             {| accountKey := "shared-network"; vpcConfig := "ca-central-1"; ouKey := None |};
             {| accountKey := "perimeter"; vpcConfig := "ca-central-1"; ouKey := None |}] |} |}.

(** A registry whose stack handles are the targets themselves. *)
Definition targetRegistry : AccountStacks (string * string) :=
  {| tryGetOrCreateAccountStack := λ accountKey region,
       if decide (accountKey = "sandbox") then None
       else Some (accountKey, default "ca-central-1" region) |}.

Definition overTargets : DefaultsStep1Props (string * string) string string :=
  {| acceleratorPrefix := "PBMMAccel-";
     accountStacks := targetRegistry;
     accounts := ["shared-network"; "perimeter"; "dev"; "test"];
     config :=
       {| getAccountConfigs :=
            [("shared-network", {| enableS3PublicAccess := None |});
             ("sandbox", {| enableS3PublicAccess := Some false |});
             ("dev", {| enableS3PublicAccess := Some true |})];
          getVpcConfigs :=
            [{| accountKey := "shared-network"; vpcConfig := "ca-central-1"; ouKey := None |};
             {| accountKey := "perimeter"; vpcConfig := "us-east-1"; ouKey := None |}] |} |}.

End LandingZoneVariants.

Module ReaderConfigs.
  Import MetadataCollection.

(** A reader in an account the directory does not list. *)
Definition withStranger : MetadataServiceProps (string * string) :=
  {| acceleratorPrefix := "PBMMAccel-";
     accounts := MetadataConfigs.directory;
     getIamConfigs :=
       [{| accountKey := "sandbox";
           iam := {| roles := Some [{| role := "Guest";
                                       metaDataReadOnlyAccess := Some true |}] |} |}] |}.

Definition strangerConfig : ResolvedIamConfig :=
  {| accountKey := "sandbox";
     iam := {| roles := Some [{| role := "Guest"; metaDataReadOnlyAccess := Some true |}] |} |}.

(** Stack outputs are read as (account key, role name, role ARN). *)
Definition findRole (outputs : list (string * string * string)) (accountKey roleName : string)
    : option string :=
  (λ found, found.2.2) <$>
    list_find (λ output, output.1.1 = accountKey ∧ output.1.2 = roleName) outputs.

Definition roleOutputs : list (string * string * string) :=
  [("security", "Auditor", "arn:aws:iam::222222222222:role/Auditor")].

(** Every account has a stack, named after account and region. *)
Definition stackOfAccount (accountKey : string) (region : option string) : option string :=
  Some (accountKey +:+ "/" +:+ default "ca-central-1" region).

Definition policyName (name : string) : string := "PBMMAccel-" +:+ name.

(** The security account has two roles that read the metadata. *)
Definition twoAuditors : list ResolvedIamConfig :=
  [{| accountKey := "ops"; iam := {| roles := None |} |};
   {| accountKey := "security";
      iam := {| roles := Some [{| role := "Auditor"; metaDataReadOnlyAccess := Some true |};
                               {| role := "Admin"; metaDataReadOnlyAccess := None |};
                               {| role := "Reviewer";
                                  metaDataReadOnlyAccess := Some true |}] |} |}].

Definition securityConfig : ResolvedIamConfig :=
  {| accountKey := "security";
     iam := {| roles := Some [{| role := "Auditor"; metaDataReadOnlyAccess := Some true |};
                              {| role := "Admin"; metaDataReadOnlyAccess := None |};
                              {| role := "Reviewer";
                                 metaDataReadOnlyAccess := Some true |}] |} |}.

(** One reader in the security account, one in the operations account. *)
Definition oneAuditorEach : list ResolvedIamConfig :=
  [{| accountKey := "ops";
      iam := {| roles := Some [{| role := "Operator";
                                  metaDataReadOnlyAccess := Some true |}] |} |};
   {| accountKey := "dev"; iam := {| roles := Some [] |} |};
   {| accountKey := "security";
      iam := {| roles := Some [{| role := "Auditor"; metaDataReadOnlyAccess := Some true |};
                               {| role := "Admin"; metaDataReadOnlyAccess := None |}] |} |}].

End ReaderConfigs.

(** * Properties *)

(** ** The create-stack handler *)

Module CreateStackSpec.
Import CreateStack.

Section Laws.
Context {StackTemplateLocation Account Credentials CfnParameters : Type}.
Variable toParameters : list (string * string) → CfnParameters.

Implicit Types (w : World StackTemplateLocation Account Credentials CfnParameters).
Implicit Types (input : CreateStackInput StackTemplateLocation).

Local Abbreviation handle := (handler toParameters).

(** The run of an excluded request: the two opening log lines, then [return]. *)
Lemma handler_excluded w input :
  excluded input = true →
  handle w input =
    MkRun [ConsoleLog (Text "Creating stack..."); ConsoleLog (InputJson input)]
          (Fulfilled undefined).
Proof.
  unfold excluded, handler. intros Hex.
  destruct (ignoredOnAccount input); [reflexivity|].
  destruct (ignoredOnAccountAndRegion input); [reflexivity|discriminate].
Qed.

(** The run of any other request, up to the answer of the account directory. *)
Lemma handler_proceeds w input :
  excluded input = false →
  handle w input =
    run_bind
      (MkRun [ConsoleLog (Text "Creating stack..."); ConsoleLog (InputJson input);
              ConsoleDebug (Text "Creating stack template");
              ConsoleDebug (TemplateLocation (stackTemplate input));
              LoadAccounts (parametersTableName input)]
             (loadAccounts w (parametersTableName input)))
      (λ accounts,
         run_bind (emit (ConsoleLog (AccountList accounts))) (λ _,
         run_bind (call (GetTemplateBody (stackTemplate input))
                        (getTemplateBody w (stackTemplate input))) (λ templateBody,
         run_bind (cloudFormationFor w input) (λ cfn,
         let req := {| StackName := stackName input;
                       TemplateBody := templateBody;
                       Capabilities := stackCapabilities input;
                       Parameters := toParameters (stackParameters input) |} in
         run_bind (call (CreateOrUpdateStack cfn req) (createOrUpdateStack w cfn req))
                  (λ _, run_ret undefined))))).
Proof.
  unfold excluded, handler. intros Hex.
  destruct (ignoredOnAccount input); [discriminate|].
  destruct (ignoredOnAccountAndRegion input); [discriminate|].
  unfold run_bind at 1 2 3 4 5. simpl.
  unfold run_bind at 1. simpl.
  destruct (loadAccounts w (parametersTableName input)); reflexivity.
Qed.

Lemma skipped_iff_excluded w input :
  skipped (handle w input) ↔ excluded input = true.
Proof.
  split.
  - intros [_ Hcalls]. destruct (excluded input) eqn:Hex; [done|].
    rewrite (handler_proceeds w input Hex) in Hcalls.
    unfold externalCalls, run_bind in Hcalls. simpl in Hcalls.
    destruct (loadAccounts w (parametersTableName input)); simpl in Hcalls;
      discriminate.
  - intros Hex. rewrite (handler_excluded w input Hex). by split.
Qed.

Lemma truthy_Some (o : option string) : truthy o = true → ∃ s, o = Some s ∧ s ≠ "".
Proof.
  destruct o as [s|]; simpl; [|discriminate].
  intros H%bool_decide_eq_true. eauto.
Qed.

Lemma excluded_spec input :
  excluded input = true ↔
    truthy (ignoreAccountId input) = true
    ∧ ignoreAccountId input = accountId input
    ∧ (truthy (ignoreRegion input) = true → ignoreRegion input = region input).
Proof.
  unfold excluded, ignoredOnAccount, ignoredOnAccountAndRegion, strict_eq.
  destruct (truthy (ignoreAccountId input)), (truthy (ignoreRegion input)); simpl;
    repeat case_bool_decide; simpl; intuition congruence.
Qed.

(** A truthy account and role are strings, as the [match] of
    [cloudFormationFor] expects. *)
Lemma cloudFormationFor_delegated w input :
  truthy (accountId input) && truthy (assumeRoleName input) = true →
  ∃ a role, accountId input = Some a ∧ assumeRoleName input = Some role
    ∧ cloudFormationFor w input =
        run_bind (call (GetCredentialsForAccountAndRole a role)
                       (getCredentialsForAccountAndRole w a role))
                 (λ credentials, run_ret (CloudFormationWith credentials (region input))).
Proof.
  intros [Ha Hr]%andb_true_iff. unfold cloudFormationFor. rewrite Ha, Hr. simpl.
  apply truthy_Some in Ha as (a & -> & _). apply truthy_Some in Hr as (role & -> & _).
  eauto.
Qed.

Lemma cloudFormationFor_ambient w input :
  truthy (accountId input) && truthy (assumeRoleName input) = false →
  cloudFormationFor w input = run_ret CloudFormationAmbient.
Proof. intros H. unfold cloudFormationFor. by rewrite H. Qed.

Ltac run_steps :=
  unfold delegations, resolutions, submissions, externalCalls, submitted,
    run_bind, emit, call, run_ret; simpl.

Lemma proceeds_submitted w input :
  excluded input = false → cooperative w → submitted (handle w input).
Proof.
  intros Hex (Hload & Hbody & Hcred).
  rewrite (handler_proceeds w input Hex).
  destruct (Hload (parametersTableName input)) as [accounts Ha].
  destruct (Hbody (stackTemplate input)) as [body Hb].
  destruct (truthy (accountId input) && truthy (assumeRoleName input)) eqn:Hsel.
  - destruct (cloudFormationFor_delegated w input Hsel) as (a & role & _ & _ & ->).
    destruct (Hcred a role) as [c Hc].
    run_steps. rewrite Ha. simpl. rewrite Hb. simpl. rewrite Hc. simpl.
    eexists _, _. destruct (createOrUpdateStack _ _ _); simpl; repeat constructor.
  - rewrite (cloudFormationFor_ambient w input Hsel).
    run_steps. rewrite Ha. simpl. rewrite Hb. simpl.
    eexists _, _. destruct (createOrUpdateStack _ _ _); simpl; repeat constructor.
Qed.

(** C2. Exclusion law of the handler, "set" read as the handler tests it (a
    non-empty string). If [ignoreAccountId] is set and equals [accountId] and
    no [ignoreRegion] is given, the upsert is skipped whatever the region. If
    both are set, it is skipped exactly when account and region both match;
    so it is never dropped on the account alone when the region differs. *)
Theorem exclusion_law w input :
  (truthy (ignoreAccountId input) = true →
   ignoreAccountId input = accountId input →
   truthy (ignoreRegion input) = false →
   skipped (handle w input))
  ∧ (truthy (ignoreAccountId input) = true →
     truthy (ignoreRegion input) = true →
     (skipped (handle w input) ↔
        ignoreAccountId input = accountId input ∧ ignoreRegion input = region input))
  ∧ (truthy (ignoreAccountId input) = true →
     truthy (ignoreRegion input) = true →
     ignoreAccountId input = accountId input →
     ignoreRegion input ≠ region input →
     ¬ skipped (handle w input)).
Proof.
  rewrite skipped_iff_excluded, excluded_spec.
  split; [|split].
  - intros Ha Heq Hr. rewrite Hr. split; [done|]. split; [done|discriminate].
  - intros Ha Hr. split.
    + intros (_ & Heq & Hreg). auto.
    + intros [Heq Hreg]. auto.
  - intros Ha Hr Heq Hne (_ & _ & Hreg). auto.
Qed.

(** C8. An under-specified request is deployed, not excluded. Without an
    [accountId] the pre-check never skips, whatever [ignoreAccountId] is; with
    [ignoreAccountId] equal to [accountId] but [ignoreRegion] set and no
    [region], it does not skip either. In both cases the handler goes on to
    submit the stack when its collaborators answer. A skip needs equality on
    every field the ignore settings constrain. *)
Theorem underspecified_request_is_deployed w input :
  (accountId input = None →
   ¬ skipped (handle w input) ∧ (cooperative w → submitted (handle w input)))
  ∧ (ignoreAccountId input = accountId input →
     truthy (ignoreRegion input) = true →
     region input = None →
     ¬ skipped (handle w input) ∧ (cooperative w → submitted (handle w input)))
  ∧ (skipped (handle w input) →
     truthy (ignoreAccountId input) = true
     ∧ ignoreAccountId input = accountId input
     ∧ (truthy (ignoreRegion input) = true → ignoreRegion input = region input)).
Proof.
  assert (Hgo : ¬ skipped (handle w input) →
                ¬ skipped (handle w input) ∧ (cooperative w → submitted (handle w input))).
  { intros Hns. split; [done|]. apply proceeds_submitted.
    rewrite skipped_iff_excluded in Hns. by destruct (excluded input). }
  split; [|split].
  - intros Hnone. apply Hgo. rewrite skipped_iff_excluded, excluded_spec.
    intros (Ha & Heq & _). rewrite <- Heq in Hnone. by rewrite Hnone in Ha.
  - intros Heq Hr Hnone. apply Hgo. rewrite skipped_iff_excluded, excluded_spec.
    intros (_ & _ & Hreg). specialize (Hreg Hr). rewrite Hnone in Hreg.
    by rewrite Hreg in Hr.
  - by rewrite skipped_iff_excluded, excluded_spec.
Qed.

(** C4, as the handler has it. When the pre-check matches, the handler
    returns at once and without an error: after its two opening log lines it
    loads no account directory, resolves no template, asks for no credentials
    and calls no provider, and its promise is fulfilled with [undefined]. *)
Theorem excluded_request_short_circuits w input :
  excluded input = true →
  completion (handle w input) = Fulfilled undefined
  ∧ externalCalls (handle w input) = []
  ∧ trace (handle w input) =
      [ConsoleLog (Text "Creating stack..."); ConsoleLog (InputJson input)].
Proof. intros Hex. by rewrite (handler_excluded w input Hex). Qed.

(** C5, as the handler has it. Once the template body is in hand, the client
    is built with delegated credentials, for the given account, role and
    region, exactly when [accountId] and [assumeRoleName] are both set; the
    trust provider is then asked once, and its refusal rejects the run. In
    every other case the client is the ambient one and the trust provider is
    not asked. The account the handler runs in plays no part. *)
Theorem credential_source_selection w input accounts body :
  excluded input = false →
  loadAccounts w (parametersTableName input) = Fulfilled accounts →
  getTemplateBody w (stackTemplate input) = Fulfilled body →
  (truthy (accountId input) && truthy (assumeRoleName input) = true →
   ∃ a role,
     accountId input = Some a ∧ assumeRoleName input = Some role
     ∧ delegations (handle w input) = [GetCredentialsForAccountAndRole a role]
     ∧ (∀ c, getCredentialsForAccountAndRole w a role = Fulfilled c →
          ∃ req, submissions (handle w input) =
                   [CreateOrUpdateStack (CloudFormationWith c (region input)) req])
     ∧ (∀ e, getCredentialsForAccountAndRole w a role = Rejected e →
          submissions (handle w input) = []
          ∧ completion (handle w input) = Rejected e))
  ∧ (truthy (accountId input) && truthy (assumeRoleName input) = false →
     delegations (handle w input) = []
     ∧ ∃ req, submissions (handle w input) = [CreateOrUpdateStack CloudFormationAmbient req]).
Proof.
  intros Hex Ha Hb. rewrite (handler_proceeds w input Hex). split; intros Hsel.
  - destruct (cloudFormationFor_delegated w input Hsel) as (a & role & Hacc & Hrole & ->).
    exists a, role. split; [done|]. split; [done|].
    run_steps. rewrite Ha. simpl. rewrite Hb. simpl.
    destruct (getCredentialsForAccountAndRole w a role) as [c|e]; simpl.
    + split; [|split].
      * by destruct (createOrUpdateStack _ _ _).
      * intros c' [= <-]. eexists. by destruct (createOrUpdateStack _ _ _).
      * intros e [=].
    + split; [done|]. split; [intros c [=]|]. by intros e' [= <-].
  - rewrite (cloudFormationFor_ambient w input Hsel).
    run_steps. rewrite Ha. simpl. rewrite Hb. simpl.
    split; [by destruct (createOrUpdateStack _ _ _)|].
    eexists. by destruct (createOrUpdateStack _ _ _).
Qed.

(** C6. The template body is resolved before anything is submitted: a
    create-or-update found in the trace carries the body the template store
    returned, and comes after the resolution. When the resolution fails no
    create-or-update is made and no credentials are asked for, the store is
    not asked again, and the failure rejects the run with the store's error:
    it is neither a skip nor retried. *)
Theorem template_resolved_before_submission w input :
  (∀ cfn req,
     CreateOrUpdateStack cfn req ∈ trace (handle w input) →
     getTemplateBody w (stackTemplate input) = Fulfilled (TemplateBody req)
     ∧ ∃ i j, i < j
         ∧ trace (handle w input) !! i = Some (GetTemplateBody (stackTemplate input))
         ∧ trace (handle w input) !! j = Some (CreateOrUpdateStack cfn req))
  ∧ (∀ e,
       getTemplateBody w (stackTemplate input) = Rejected e →
       submissions (handle w input) = []
       ∧ delegations (handle w input) = []
       ∧ length (resolutions (handle w input)) ≤ 1
       ∧ (excluded input = false →
          ∀ accounts, loadAccounts w (parametersTableName input) = Fulfilled accounts →
          completion (handle w input) = Rejected e
          ∧ ¬ skipped (handle w input)
          ∧ externalCalls (handle w input) =
              [LoadAccounts (parametersTableName input);
               GetTemplateBody (stackTemplate input)])).
Proof.
  split.
  - intros cfn req. destruct (excluded input) eqn:Hex.
    { rewrite (handler_excluded w input Hex). simpl. intros Hin.
      repeat (apply elem_of_cons in Hin as [Hin|Hin]; [discriminate|]).
      by apply elem_of_nil in Hin. }
    rewrite (handler_proceeds w input Hex).
    destruct (truthy (accountId input) && truthy (assumeRoleName input)) eqn:Hsel.
    + destruct (cloudFormationFor_delegated w input Hsel) as (a & role & _ & _ & ->).
      run_steps.
      destruct (loadAccounts w _); simpl;
        [destruct (getTemplateBody w _); simpl;
          [destruct (getCredentialsForAccountAndRole w a role); simpl;
            [destruct (createOrUpdateStack w _ _); simpl|]|]|];
        intros Hin;
        repeat (apply elem_of_cons in Hin as [Hin|Hin]; [try discriminate|]);
        try (by apply elem_of_nil in Hin);
        injection Hin as -> ->; (split; [done|]); exists 6, 8; by repeat split; try lia.
    + rewrite (cloudFormationFor_ambient w input Hsel).
      run_steps.
      destruct (loadAccounts w _); simpl;
        [destruct (getTemplateBody w _); simpl;
          [destruct (createOrUpdateStack w _ _); simpl|]|];
        intros Hin;
        repeat (apply elem_of_cons in Hin as [Hin|Hin]; [try discriminate|]);
        try (by apply elem_of_nil in Hin);
        injection Hin as -> ->; (split; [done|]); exists 6, 7; by repeat split; try lia.
  - intros e He. destruct (excluded input) eqn:Hex.
    { rewrite (handler_excluded w input Hex). run_steps.
      split; [done|]. split; [done|]. split; [lia|discriminate]. }
    rewrite (handler_proceeds w input Hex). run_steps. rewrite He.
    destruct (loadAccounts w _) as [accounts|e']; simpl.
    + split; [done|]. split; [done|]. split; [lia|].
      intros _ accounts' _. split; [done|]. split; [|done].
      intros [Hc _]. discriminate.
    + split; [done|]. split; [done|]. split; [lia|]. by intros _ accounts.
Qed.

End Laws.

(** *** The laws on concrete requests *)

Import Scenarios.

Lemma friendly_cooperative : cooperative friendly.
Proof. repeat split; intros; eexists; reflexivity. Defined.

Lemma exclusion_law_witness :
  skipped (run friendly toIgnoredAccount)
  ∧ skipped (run friendly toIgnoredAccountAndRegion)
  ∧ ¬ skipped (run friendly toIgnoredAccountOtherRegion).
Proof.
  split; [|split].
  - apply (proj1 (exclusion_law (λ p, p) friendly toIgnoredAccount)); reflexivity.
  - apply (proj1 (proj2 (exclusion_law (λ p, p) friendly toIgnoredAccountAndRegion)));
      [reflexivity | reflexivity | split; reflexivity].
  - apply (proj2 (proj2 (exclusion_law (λ p, p) friendly toIgnoredAccountOtherRegion)));
      [reflexivity | reflexivity | reflexivity | discriminate].
Defined.

Lemma underspecified_request_witness :
  (accountId withoutAccount = None
   ∧ ¬ skipped (run friendly withoutAccount) ∧ submitted (run friendly withoutAccount))
  ∧ (region withoutRegion = None
     ∧ ¬ skipped (run friendly withoutRegion) ∧ submitted (run friendly withoutRegion)).
Proof.
  split.
  - split; [reflexivity|].
    destruct (proj1 (underspecified_request_is_deployed (λ p, p) friendly withoutAccount)
                    eq_refl) as [Hns Hsub].
    split; [exact Hns | exact (Hsub friendly_cooperative)].
  - split; [reflexivity|].
    destruct (proj1 (proj2 (underspecified_request_is_deployed (λ p, p) friendly withoutRegion))
                    eq_refl eq_refl eq_refl) as [Hns Hsub].
    split; [exact Hns | exact (Hsub friendly_cooperative)].
Defined.

Lemma excluded_request_witness :
  excluded toIgnoredAccount = true
  ∧ completion (run friendly toIgnoredAccount) = Fulfilled undefined
  ∧ externalCalls (run friendly toIgnoredAccount) = []
  ∧ trace (run friendly toIgnoredAccount) =
      [ConsoleLog (Text "Creating stack..."); ConsoleLog (InputJson toIgnoredAccount)].
Proof.
  split; [reflexivity|].
  apply (excluded_request_short_circuits (λ p, p) friendly toIgnoredAccount).
  reflexivity.
Defined.

(** C4, as the claim words it, fails: the handler reports no outcome. The
    ignored account's run is skipped and the other account's run submits its
    stack, yet both promises are fulfilled with [undefined]; no reading of the
    handler's result yields [Skipped] for the first and something else for
    the second. *)
Lemma skip_reports_no_outcome :
  skipped (run friendly toIgnoredAccount)
  ∧ submitted (run friendly toOtherAccount)
  ∧ ¬ ∃ report : Completion Void → UpsertOutcome,
        report (completion (run friendly toIgnoredAccount)) = Skipped
        ∧ report (completion (run friendly toOtherAccount)) ≠ Skipped.
Proof.
  split; [by split|]. split.
  - eexists _, _. vm_compute. repeat constructor.
  - intros (report & Hskip & Hother). apply Hother. exact Hskip.
Qed.

Lemma credential_source_witness :
  (excluded toOtherAccount = false
   ∧ loadAccounts friendly (parametersTableName toOtherAccount) = Fulfilled ["ops"; "shared"]
   ∧ getTemplateBody friendly (stackTemplate toOtherAccount)
     = Fulfilled "body of templates/baseline.yml")
  ∧ delegations (run friendly toOtherAccount)
    = [GetCredentialsForAccountAndRole "333333333333" "PipelineRole"]
  ∧ delegations (run friendly withoutAccount) = [].
Proof.
  split; [repeat split|]. split.
  - destruct (proj1 (credential_source_selection (λ p, p) friendly toOtherAccount
                       ["ops"; "shared"] "body of templates/baseline.yml"
                       eq_refl eq_refl eq_refl) eq_refl)
      as (a & role & Ha & Hrole & Hd & _).
    injection Ha as <-. injection Hrole as <-. exact Hd.
  - exact (proj1 (proj2 (credential_source_selection (λ p, p) friendly withoutAccount
                           ["ops"; "shared"] "body of templates/baseline.yml"
                           eq_refl eq_refl eq_refl) eq_refl)).
Defined.

(** C5, as the claim words it, fails: the handler never compares the target
    account with the account it runs in. A request into its own account that
    names a role asks the trust provider for credentials like any other. *)
Lemma own_account_is_delegated :
  accountId toOwnAccount = Some (callerAccountId friendly)
  ∧ delegations (run friendly toOwnAccount)
    = [GetCredentialsForAccountAndRole "111111111111" "PipelineRole"]
  ∧ ¬ ∀ (w : TheWorld) (input : Input),
        accountId input = Some (callerAccountId w) → delegations (run w input) = [].
Proof.
  split; [reflexivity|]. split; [reflexivity|].
  intros H. specialize (H friendly toOwnAccount eq_refl). discriminate H.
Qed.

Lemma template_failure_witness :
  getTemplateBody templateMissing (stackTemplate toOtherAccount) = Rejected "NoSuchKey"
  ∧ submissions (run templateMissing toOtherAccount) = []
  ∧ completion (run templateMissing toOtherAccount) = Rejected "NoSuchKey".
Proof.
  split; [reflexivity|].
  destruct (proj2 (template_resolved_before_submission (λ p, p) templateMissing toOtherAccount)
                  "NoSuchKey" eq_refl) as (Hsub & _ & _ & Hrun).
  split; [exact Hsub|].
  exact (proj1 (Hrun eq_refl ["ops"; "shared"] eq_refl)).
Defined.

(** The calls of a delegated upsert, in program order. *)
Example delegated_upsert_calls :
  externalCalls (run friendly toOtherAccount) =
    [LoadAccounts "PBMMAccel-Parameters";
     GetTemplateBody "templates/baseline.yml";
     GetCredentialsForAccountAndRole "333333333333" "PipelineRole";
     CreateOrUpdateStack
       (CloudFormationWith "333333333333/PipelineRole" (Some "ca-central-1"))
       {| StackName := "PBMMAccel-Baseline";
          TemplateBody := "body of templates/baseline.yml";
          Capabilities := ["CAPABILITY_NAMED_IAM"];
          Parameters := [("Prefix", "PBMMAccel-")] |}].
Proof. reflexivity. Qed.

(** An empty [ignoreRegion] is no region constraint: the account decides. *)
Example empty_ignore_region_is_not_set :
  skipped (run friendly (request (Some "222222222222") None (Some "us-east-1")
                                 (Some "222222222222") (Some ""))).
Proof. by split. Qed.

(** An empty [ignoreAccountId] ignores nothing, not even an empty [accountId]. *)
Example empty_ignore_account_is_not_set :
  ¬ skipped (run friendly (request (Some "") None (Some "us-east-1") (Some "") None)).
Proof. intros [_ Hcalls]. discriminate Hcalls. Qed.

End CreateStackSpec.

(** ** Public-access blocks and default EBS encryption keys *)

Module DefaultsStep1Spec.
  Import DefaultsStep1.

(** *** [Array.from(new Set(l))] *)

Lemma elem_of_setAdd (members : list string) (y x : string) :
  x ∈ setAdd members y ↔ x ∈ members ∨ x = y.
Proof.
  unfold setAdd. case_decide as Hy.
  - split; [auto|]. intros [H| ->]; done.
  - rewrite elem_of_app, list_elem_of_singleton. done.
Qed.

Lemma NoDup_setAdd (members : list string) (y : string) :
  NoDup members → NoDup (setAdd members y).
Proof.
  intros Hnd. unfold setAdd. case_decide as Hy; [done|].
  apply NoDup_app. split; [done|]. split.
  - intros x Hx ->%list_elem_of_singleton. done.
  - apply NoDup_singleton.
Qed.

Lemma elem_of_foldl_setAdd (l members : list string) (x : string) :
  x ∈ foldl setAdd members l ↔ x ∈ members ∨ x ∈ l.
Proof.
  revert members. induction l as [|y l IH]; intros members; simpl.
  - rewrite elem_of_nil. tauto.
  - rewrite IH, elem_of_setAdd, elem_of_cons. tauto.
Qed.

Lemma NoDup_foldl_setAdd (l members : list string) :
  NoDup members → NoDup (foldl setAdd members l).
Proof.
  revert members. induction l as [|y l IH]; intros members Hnd; simpl; [done|].
  apply IH, NoDup_setAdd, Hnd.
Qed.

Lemma elem_of_arrayFromSet (l : list string) (x : string) :
  x ∈ arrayFromSet l ↔ x ∈ l.
Proof.
  unfold arrayFromSet. rewrite elem_of_foldl_setAdd, elem_of_nil. tauto.
Qed.

Lemma NoDup_arrayFromSet (l : list string) : NoDup (arrayFromSet l).
Proof. apply NoDup_foldl_setAdd, NoDup_nil_2. Qed.

Section Laws.
  Context {AccountStack Account VpcConfig : Type}.
  Variable vpcRegion : VpcConfig → string.
  Variable getVpcSharedAccountKeys : list Account → VpcConfig → option string → list string.
  Variable createEncryptionKeyName : string → string.

  Implicit Types (props : DefaultsStep1Props AccountStack Account VpcConfig).
  Implicit Types (c : ResolvedVpcConfig VpcConfig).
  Implicit Types (stacks : AccountStacks AccountStack).
  Implicit Types (st : EbsState AccountStack).
  Implicit Types (a r region : string).

  Local Abbreviation accountKeys := (accountKeysFor getVpcSharedAccountKeys).
  Local Abbreviation step := (ebsForAccount createEncryptionKeyName).
  Local Abbreviation keyIn := (ebsDefaultEncryptionKey createEncryptionKeyName).
  Local Abbreviation resourcesIn := (ebsResources createEncryptionKeyName).
  Local Abbreviation createKeys :=
    (createDefaultEbsEncryptionKey vpcRegion getVpcSharedAccountKeys createEncryptionKeyName).

(** *** The result object *)

Lemma lookupKey_recordKey (keys : gmap string (gmap string (KmsKey AccountStack)))
    a r (key : KmsKey AccountStack) :
  lookupKey (recordKey keys a r key) a r = Some key.
Proof.
  unfold lookupKey, recordKey. rewrite lookup_insert_eq. simpl. apply lookup_insert_eq.
Qed.

Lemma lookupKey_recordKey_other (keys : gmap string (gmap string (KmsKey AccountStack)))
    a r (key : KmsKey AccountStack) a' r' :
  (a', r') ≠ (a, r) →
  lookupKey (recordKey keys a r key) a' r' = lookupKey keys a' r'.
Proof.
  intros Hne. unfold lookupKey, recordKey.
  destruct (decide (a = a')) as [<-|Ha].
  - rewrite lookup_insert_eq. simpl.
    rewrite lookup_insert_ne by congruence.
    destruct (keys !! a); simpl; [done | apply lookup_empty].
  - by rewrite lookup_insert_ne.
Qed.

(** *** The log *)

Lemma keysCreatedFor_app (log1 log2 : list (string * string * Event AccountStack)) a r :
  keysCreatedFor (log1 ++ log2) a r = keysCreatedFor log1 a r ++ keysCreatedFor log2 a r.
Proof. apply omap_app. Qed.

Lemma keysCreatedFor_resources (accountStack : AccountStack) a0 r0 a r :
  keysCreatedFor ((λ e, (a0, r0, e)) <$> resourcesIn accountStack) a r
  = if decide ((a0, r0) = (a, r)) then [keyIn accountStack] else [].
Proof. unfold keysCreatedFor. simpl. by case_decide. Qed.

Lemma elem_of_ebsEmit st a0 r0 (events : list (Event AccountStack)) a r e :
  (a, r, e) ∈ ebsEmit st a0 r0 events ↔
    (a, r, e) ∈ ebsLog st ∨ ((a, r) = (a0, r0) ∧ e ∈ events).
Proof.
  unfold ebsEmit. rewrite elem_of_app, list_elem_of_fmap. split.
  - intros [H|(e' & [= -> -> ->] & He)]; [by left | by right].
  - intros [H|([= -> ->] & He)]; [by left | right; eauto].
Qed.

(** C3. The accounts one VPC configuration reaches: the owning account and
    every account the sharing predicate returns, and nothing else, each of
    them once, however often the predicate names it. *)
Theorem shared_vpc_accounts_deduplicated (accounts : list Account) c :
  accountKey c ∈ accountKeysFor getVpcSharedAccountKeys accounts c
  ∧ (∀ k, k ∈ getVpcSharedAccountKeys accounts (vpcConfig c) (ouKey c) →
          k ∈ accountKeysFor getVpcSharedAccountKeys accounts c)
  ∧ NoDup (accountKeysFor getVpcSharedAccountKeys accounts c)
  ∧ (∀ k, k ∈ accountKeysFor getVpcSharedAccountKeys accounts c →
          k = accountKey c ∨ k ∈ getVpcSharedAccountKeys accounts (vpcConfig c) (ouKey c)).
Proof.
  unfold accountKeysFor. split; [|split; [|split]].
  - rewrite elem_of_arrayFromSet, elem_of_app, list_elem_of_singleton. by right.
  - intros k Hk. rewrite elem_of_arrayFromSet, elem_of_app. by left.
  - apply NoDup_arrayFromSet.
  - intros k. rewrite elem_of_arrayFromSet, elem_of_app, list_elem_of_singleton.
    intros [Hk|Hk]; [by right | by left].
Qed.

(** *** One iteration of the inner loop *)

Local Abbreviation invariant := (consistent createEncryptionKeyName).

Lemma step_skips stacks region st a (key : KmsKey AccountStack) :
  lookupKey (accountEbsEncryptionKeys st) a region = Some key →
  step stacks region st a =
    {| accountEbsEncryptionKeys := accountEbsEncryptionKeys st;
       ebsLog := ebsLog st ++
         [(a, region, ConsoleLog ("EBSEncryptionKey is already created in account "
                                  +:+ a +:+ " and region " +:+ region))] |}.
Proof. intros H. unfold ebsForAccount. by rewrite H. Qed.

Lemma step_keeps_keys stacks region st a a' r' (key : KmsKey AccountStack) :
  lookupKey (accountEbsEncryptionKeys st) a' r' = Some key →
  lookupKey (accountEbsEncryptionKeys (step stacks region st a)) a' r' = Some key.
Proof.
  intros Hkey. unfold ebsForAccount.
  destruct (lookupKey (accountEbsEncryptionKeys st) a region) eqn:Hl; [done|].
  destruct (tryGetOrCreateAccountStack stacks a (Some region)); [|done].
  simpl. rewrite lookupKey_recordKey_other; [done|]. intros [= -> ->]. congruence.
Qed.

Lemma step_keeps_log stacks region st a (entry : string * string * Event AccountStack) :
  entry ∈ ebsLog st → entry ∈ ebsLog (step stacks region st a).
Proof.
  intros Hin. destruct entry as [[a' r'] e]. unfold ebsForAccount.
  destruct (lookupKey (accountEbsEncryptionKeys st) a region);
    [|destruct (tryGetOrCreateAccountStack stacks a (Some region))];
    simpl; apply elem_of_ebsEmit; by left.
Qed.

Lemma step_consistent stacks region st a :
  invariant stacks st → invariant stacks (step stacks region st a).
Proof.
  intros (Hcreated & Hrecorded & Hresources). unfold ebsForAccount.
  destruct (lookupKey (accountEbsEncryptionKeys st) a region) as [key|] eqn:Hl;
    [|destruct (tryGetOrCreateAccountStack stacks a (Some region))
        as [accountStack|] eqn:Hstack].
  - split; [|split]; simpl.
    + intros a' r'. unfold ebsEmit. rewrite keysCreatedFor_app. simpl.
      rewrite app_nil_r. apply Hcreated.
    + intros a' r' key' Hkey. destruct (Hrecorded a' r' key' Hkey) as (s & Hs & -> & Hall).
      exists s. split; [done|]. split; [done|].
      intros e He. apply elem_of_ebsEmit. left. by apply Hall.
    + intros a' r' e [Hin|[_ He]]%elem_of_ebsEmit Hres; [by eapply Hresources|].
      apply list_elem_of_singleton in He as ->. discriminate.
  - split; [|split]; simpl.
    + intros a' r'. unfold ebsEmit. rewrite keysCreatedFor_app, keysCreatedFor_resources.
      case_decide as Heq.
      * injection Heq as <- <-. rewrite lookupKey_recordKey, Hcreated, Hl. done.
      * rewrite app_nil_r, lookupKey_recordKey_other by congruence. apply Hcreated.
    + intros a' r' key'. destruct (decide ((a', r') = (a, region))) as [[= -> ->]|Hne].
      * rewrite lookupKey_recordKey. intros [= <-]. exists accountStack.
        split; [done|]. split; [done|].
        intros e He. apply elem_of_ebsEmit. by right.
      * rewrite lookupKey_recordKey_other by done. intros Hkey.
        destruct (Hrecorded a' r' key' Hkey) as (s & Hs & -> & Hall).
        exists s. split; [done|]. split; [done|].
        intros e He. apply elem_of_ebsEmit. left. by apply Hall.
    + intros a' r' e Hin Hres.
      destruct (decide ((a', r') = (a, region))) as [[= -> ->]|Hne].
      * rewrite lookupKey_recordKey. by eexists.
      * rewrite lookupKey_recordKey_other by done.
        apply elem_of_ebsEmit in Hin as [Hin|[Heq _]]; [by eapply Hresources | done].
  - split; [|split]; simpl.
    + intros a' r'. unfold ebsEmit. rewrite keysCreatedFor_app. simpl.
      rewrite app_nil_r. apply Hcreated.
    + intros a' r' key' Hkey. destruct (Hrecorded a' r' key' Hkey) as (s & Hs & -> & Hall).
      exists s. split; [done|]. split; [done|].
      intros e He. apply elem_of_ebsEmit. left. by apply Hall.
    + intros a' r' e [Hin|[_ He]]%elem_of_ebsEmit Hres; [by eapply Hresources|].
      apply list_elem_of_singleton in He as ->. discriminate.
Qed.

Lemma step_serves stacks region st a :
  served stacks (step stacks region st a) a region.
Proof.
  unfold served, ebsForAccount.
  destruct (lookupKey (accountEbsEncryptionKeys st) a region) as [key|] eqn:Hl;
    [|destruct (tryGetOrCreateAccountStack stacks a (Some region))
        as [accountStack|] eqn:Hstack]; simpl.
  - left. rewrite Hl. by eexists.
  - left. rewrite lookupKey_recordKey. by eexists.
  - right. split; [done|]. apply elem_of_ebsEmit. right.
    split; [done|]. by apply list_elem_of_singleton.
Qed.

Lemma step_keeps_served stacks region st a a' r' :
  served stacks st a' r' → served stacks (step stacks region st a) a' r'.
Proof.
  intros [[key Hkey]|[Hnone Hwarn]].
  - left. exists key. by apply step_keeps_keys.
  - right. split; [done|]. by apply step_keeps_log.
Qed.

(** *** The two loops, as one pass over the requests *)

Local Abbreviation serve := (ebsServe createEncryptionKeyName).
Local Abbreviation requests := (ebsRequests vpcRegion getVpcSharedAccountKeys).

Lemma createKeys_requests props :
  createKeys props =
    foldl (serve (accountStacks props))
          {| accountEbsEncryptionKeys := ∅; ebsLog := [] |} (requests props).
Proof.
  unfold createDefaultEbsEncryptionKey, ebsRequests.
  generalize ({| accountEbsEncryptionKeys := ∅; ebsLog := [] |} : EbsState AccountStack).
  induction (getVpcConfigs (config props)) as [|c l IH]; intros st; [done|].
  rewrite bind_cons, foldl_app, foldl_fmap. simpl. apply IH.
Qed.

Lemma empty_consistent stacks :
  invariant stacks {| accountEbsEncryptionKeys := ∅; ebsLog := [] |}.
Proof.
  split; [|split]; simpl.
  - intros a r. unfold lookupKey. by rewrite lookup_empty.
  - intros a r key. unfold lookupKey. by rewrite lookup_empty.
  - intros a r e Hin. by apply elem_of_nil in Hin.
Qed.

Lemma serve_all_consistent stacks (l : list (string * string)) st :
  invariant stacks st → invariant stacks (foldl (serve stacks) st l).
Proof.
  revert st. induction l as [|q l IH]; intros st Hst; [done|].
  simpl. apply IH, step_consistent, Hst.
Qed.

Lemma serve_all_keeps_served stacks (l : list (string * string)) st a r :
  served stacks st a r → served stacks (foldl (serve stacks) st l) a r.
Proof.
  revert st. induction l as [|q l IH]; intros st Hst; [done|].
  simpl. apply IH, step_keeps_served, Hst.
Qed.

Lemma serve_all_serves stacks (l : list (string * string)) st a r :
  (a, r) ∈ l → served stacks (foldl (serve stacks) st l) a r.
Proof.
  intros (l1 & l2 & ->)%list_elem_of_split.
  rewrite foldl_app. simpl. apply serve_all_keeps_served.
  apply (step_serves stacks r (foldl (serve stacks) st l1) a).
Qed.

Lemma createKeys_consistent props :
  invariant (accountStacks props) (createKeys props).
Proof. rewrite createKeys_requests. apply serve_all_consistent, empty_consistent. Qed.

Lemma elem_of_requests props c a :
  c ∈ getVpcConfigs (config props) →
  a ∈ accountKeys (accounts props) c →
  (a, vpcRegion (vpcConfig c)) ∈ requests props.
Proof.
  intros Hc Ha. unfold ebsRequests. apply list_elem_of_bind. exists c.
  split; [|done]. apply list_elem_of_fmap. by exists a.
Qed.

(** *** [blockS3PublicAccess] as the concatenation of its iterations *)

Lemma blockS3PublicAccess_bind props :
  blockS3PublicAccess props =
    getAccountConfigs (config props) ≫= blockS3PublicAccessFor (accountStacks props).
Proof.
  unfold blockS3PublicAccess.
  rewrite <- (app_nil_l (_ ≫= _)). generalize (@nil (Event AccountStack)).
  induction (getAccountConfigs (config props)) as [|entry l IH]; intros log; simpl.
  - by rewrite app_nil_r.
  - rewrite IH. by rewrite <- app_assoc.
Qed.



(** *** One key per stack *)

Lemma elem_of_keysCreatedFor (log : list (string * string * Event AccountStack))
    a r (key : KmsKey AccountStack) :
  (a, r, NewKey key) ∈ log → key ∈ keysCreatedFor log a r.
Proof.
  intros Hin. unfold keysCreatedFor. apply list_elem_of_omap.
  exists (a, r, NewKey key). split; [done|]. by rewrite decide_True.
Qed.

Lemma keysCreatedFor_hit (log : list (string * string * Event AccountStack))
    a r (key : KmsKey AccountStack) :
  keysCreatedFor ((a, r, NewKey key) :: log) a r = key :: keysCreatedFor log a r.
Proof. unfold keysCreatedFor. simpl. by rewrite decide_True. Qed.

Lemma keysCreatedFor_twice (log : list (string * string * Event AccountStack))
    a r (key1 key2 : KmsKey AccountStack) i j :
  i < j →
  log !! i = Some (a, r, NewKey key1) →
  log !! j = Some (a, r, NewKey key2) →
  2 ≤ length (keysCreatedFor log a r).
Proof.
  intros Hlt Hi Hj.
  rewrite <- (take_drop_middle log i _ Hi), keysCreatedFor_app, keysCreatedFor_hit.
  assert (drop (S i) log !! (j - S i) = Some (a, r, NewKey key2)) as Hj'.
  { rewrite lookup_drop. by replace (S i + (j - S i)) with j by lia. }
  rewrite <- (take_drop_middle _ _ _ Hj'), keysCreatedFor_app, keysCreatedFor_hit.
  rewrite length_app. simpl. rewrite length_app. simpl. lia.
Qed.

(** X9. When the registry hands distinct targets distinct stacks, no stack
    is handed two [EbsDefaultEncryptionKey] constructs: two key creations of the
    log with the same scope are one and the same entry. *)
Lemma one_ebs_key_per_stack props :
  (∀ a r a' r' accountStack,
     tryGetOrCreateAccountStack (accountStacks props) a (Some r) = Some accountStack →
     tryGetOrCreateAccountStack (accountStacks props) a' (Some r') = Some accountStack →
     (a, r) = (a', r')) →
  ∀ i j a r a' r' (key key' : KmsKey AccountStack),
    ebsLog (createKeys props) !! i = Some (a, r, NewKey key) →
    ebsLog (createKeys props) !! j = Some (a', r', NewKey key') →
    keyScope key = keyScope key' →
    i = j.
Proof.
  intros Hinj i j a r a' r' key key' Hi Hj Hscope.
  destruct (createKeys_consistent props) as (Hcreated & Hrecorded & Hresources).
  assert (Hstack : ∀ n b q (k : KmsKey AccountStack),
            ebsLog (createKeys props) !! n = Some (b, q, NewKey k) →
            tryGetOrCreateAccountStack (accountStacks props) b (Some q)
            = Some (keyScope k)).
  { intros n b q k Hn. apply list_elem_of_lookup_2 in Hn.
    destruct (Hresources b q _ Hn eq_refl) as [k0 Hk0].
    pose proof (elem_of_keysCreatedFor _ _ _ _ Hn) as Hk.
    rewrite Hcreated, Hk0 in Hk. apply list_elem_of_singleton in Hk as ->.
    destruct (Hrecorded b q k0 Hk0) as (s & Hs & -> & _). done. }
  pose proof (Hstack i a r key Hi) as Hs. pose proof (Hstack j a' r' key' Hj) as Hs'.
  rewrite Hscope in Hs. injection (Hinj _ _ _ _ _ Hs Hs') as -> ->.
  assert (length (keysCreatedFor (ebsLog (createKeys props)) a' r') ≤ 1) as Hone.
  { rewrite Hcreated. destruct (lookupKey _ a' r'); simpl; lia. }
  destruct (decide (i = j)) as [|Hne]; [done|]. exfalso.
  destruct (decide (i < j)).
  - pose proof (keysCreatedFor_twice _ _ _ _ _ i j ltac:(lia) Hi Hj). lia.
  - pose proof (keysCreatedFor_twice _ _ _ _ _ j i ltac:(lia) Hj Hi). lia.
Qed.

End Laws.

(** *** The laws on a landing zone with two shared VPCs *)

Import LandingZone.

(** The second VPC reaches [dev], [sandbox] and [test] again. *)
Example landing_zone_requests :
  ebsRequests (λ vpc, vpc) sharing props =
    [("dev", "ca-central-1"); ("sandbox", "ca-central-1"); ("test", "ca-central-1");
     ("shared-network", "ca-central-1");
     ("dev", "ca-central-1"); ("sandbox", "ca-central-1"); ("test", "ca-central-1");
     ("perimeter", "ca-central-1")].
Proof. reflexivity. Qed.

Example landing_zone_accounts :
  accountKeysFor sharing (accounts props) sharedNetworkVpc
  = ["dev"; "sandbox"; "test"; "shared-network"].
Proof. reflexivity. Qed.



End DefaultsStep1Spec.

(** ** The custom resource and its backing Lambda function *)

Module AcceptVpcEndpointSpec.
  Import AcceptVpcEndpoint.
  Local Open Scope cdk_scope.

(** *** The monad *)

Lemma cdk_bind_unfold {A B} (m : Cdk A) (k : A → Cdk B) (app : gmap (string * list string) Construct) :
  cdk_bind m k app =
    match completion (m app).2 with
    | Fulfilled a =>
        ((k a (m app).1).1,
         MkRun (trace (m app).2 ++ trace (k a (m app).1).2) (completion (k a (m app).1).2))
    | Rejected e => ((m app).1, MkRun (trace (m app).2) (Rejected e))
    end.
Proof.
  unfold cdk_bind. destruct (m app) as [app1 r1]. simpl.
  destruct (completion r1) as [a|e]; [|done]. by destruct (k a app1).
Qed.

Lemma refKey_inj (ref1 ref2 : ConstructRef) : refKey ref1 = refKey ref2 → ref1 = ref2.
Proof. destruct ref1, ref2. unfold refKey. simpl. by intros [= -> ->]. Qed.

Lemma elem_of_createdRefs (events : list Event) (ref : ConstructRef) :
  ref ∈ createdRefs events ↔ ∃ c, Created ref c ∈ events.
Proof.
  unfold createdRefs. rewrite list_elem_of_fmap. split.
  - intros ([ref' c] & -> & Hin). by exists c.
  - intros [c Hin]. by exists (Created ref c).
Qed.

Lemma orderly_ret {A} (a : A) : orderly (cdk_ret a).
Proof.
  intros app. unfold cdk_ret. simpl. split; [done|]. split.
  - intros ref c Hin. by apply elem_of_nil in Hin.
  - apply NoDup_nil_2.
Qed.

Lemma orderly_bind {A B} (m : Cdk A) (k : A → Cdk B) :
  orderly m → (∀ a, orderly (k a)) → orderly (cdk_bind m k).
Proof.
  intros Hm Hk app. rewrite cdk_bind_unfold.
  destruct (Hm app) as (Hmono & Hnew & Hnodup).
  destruct (completion (m app).2) as [a|e]; simpl; [|done].
  destruct (Hk a (m app).1) as (Hmono' & Hnew' & Hnodup').
  split; [|split].
  - intros key x Hx. by apply Hmono', Hmono.
  - intros ref c [Hin|Hin]%elem_of_app.
    + destruct (Hnew ref c Hin) as [Hbefore Hafter]. split; [done|]. by apply Hmono'.
    + destruct (Hnew' ref c Hin) as [Hbefore Hafter]. split; [|done].
      destruct (app !! refKey ref) as [x|] eqn:Hx; [|done].
      apply Hmono in Hx. congruence.
  - unfold createdRefs. rewrite fmap_app. apply NoDup_app.
    split; [done|]. split; [|done].
    intros ref [c Hin]%elem_of_createdRefs [c' Hin']%elem_of_createdRefs.
    destruct (Hnew ref c Hin) as [_ Hafter].
    destruct (Hnew' ref c' Hin') as [Hbefore _]. congruence.
Qed.

Lemma orderly_new (scope : ConstructRef) (id : string) (c : Construct) :
  orderly (new scope id c).
Proof.
  intros app. unfold new, tryFindChild.
  destruct (app !! (stackOf scope, pathOf scope ++ [id])) as [x|] eqn:Hx; simpl.
  - split; [done|]. split; [|apply NoDup_nil_2].
    intros ref c' Hin. by apply elem_of_nil in Hin.
  - split; [|split].
    + intros key y Hy. rewrite lookup_insert_ne; [done|]. congruence.
    + intros ref c' [= -> ->]%list_elem_of_singleton. simpl.
      split; [done|]. apply lookup_insert_eq.
    + apply NoDup_singleton.
Qed.

(** *** The getter *)

Lemma lambdaFunction_existing (this : ConstructRef) (roleArn : string)
    (app : gmap (string * list string) Construct) (existing : Construct) :
  tryFindChild app (stackRef this) constructName = Some existing →
  lambdaFunction this roleArn app =
    (app, MkRun [] (Fulfilled (childRef (stackRef this) constructName, existing))).
Proof. intros H. unfold lambdaFunction. by rewrite H. Qed.

Lemma lambdaFunction_first (this : ConstructRef) (roleArn : string)
    (app : gmap (string * list string) Construct) :
  tryFindChild app (stackRef this) constructName = None →
  let fn := Function {| runtime := "nodejs14.x"; code := runtimePackage;
                        handler := "index.handler"; role := roleArn;
                        timeoutMinutes := 15 |} in
  lambdaFunction this roleArn app =
    (<[(stackOf this, [constructName]) := fn]> app,
     MkRun [Created (childRef (stackRef this) constructName) fn]
           (Fulfilled (childRef (stackRef this) constructName, fn))).
Proof.
  intros H. unfold lambdaFunction. rewrite H.
  unfold cdk_bind, new. by rewrite H.
Qed.

Lemma orderly_lambdaFunction (this : ConstructRef) (roleArn : string) :
  orderly (lambdaFunction this roleArn).
Proof.
  intros app.
  destruct (tryFindChild app (stackRef this) constructName) as [existing|] eqn:Hfind.
  - rewrite (lambdaFunction_existing _ _ _ _ Hfind). apply (orderly_ret _ app).
  - rewrite (lambdaFunction_first _ _ _ Hfind). simpl.
    unfold tryFindChild in Hfind. simpl in Hfind.
    split; [|split].
    + intros key y Hy. rewrite lookup_insert_ne; [done|]. congruence.
    + intros ref c [= -> ->]%list_elem_of_singleton. simpl.
      split; [done|]. apply lookup_insert_eq.
    + apply NoDup_singleton.
Qed.

(** What the getter hands back sits under [constructName] in the stack. *)
Lemma lambdaFunction_result (this : ConstructRef) (roleArn : string)
    (app : gmap (string * list string) Construct) :
  ∃ x, completion (lambdaFunction this roleArn app).2
         = Fulfilled ({| stackOf := stackOf this; pathOf := [constructName] |}, x)
       ∧ (lambdaFunction this roleArn app).1 !! (stackOf this, [constructName]) = Some x.
Proof.
  destruct (tryFindChild app (stackRef this) constructName) as [existing|] eqn:Hfind.
  - rewrite (lambdaFunction_existing _ _ _ _ Hfind). by exists existing.
  - rewrite (lambdaFunction_first _ _ _ Hfind). simpl. eexists. split; [done|].
    apply lookup_insert_eq.
Qed.

(** *** The constructor *)

Lemma orderly_constructor (scope : ConstructRef) (id : string)
    (props : Ec2AcceptVpcEndpointConnectionProps) :
  orderly (newEc2AcceptVpcEndpointConnection scope id props).
Proof.
  unfold newEc2AcceptVpcEndpointConnection.
  repeat (apply orderly_bind; [|intros ?]);
    first [apply orderly_new | apply orderly_lambdaFunction | apply orderly_ret].
Qed.

Lemma backedAt_ret {A} (a : A) (app : gmap (string * list string) Construct) :
  backedAt (cdk_ret a) app.
Proof. intros ref c Hin. by apply elem_of_nil in Hin. Qed.

Lemma backedAt_bind {A B} (m : Cdk A) (k : A → Cdk B)
    (app : gmap (string * list string) Construct) :
  backedAt m app →
  (∀ a, completion (m app).2 = Fulfilled a → orderly (k a) ∧ backedAt (k a) (m app).1) →
  backedAt (cdk_bind m k) app.
Proof.
  intros Hm Hk ref c. rewrite cdk_bind_unfold.
  destruct (completion (m app).2) as [a|e] eqn:Hdone; simpl; [|apply Hm].
  destruct (Hk a eq_refl) as [Hord Hback].
  intros [Hin|Hin]%elem_of_app; [|by apply Hback].
  specialize (Hm ref c Hin). destruct c; try done.
  destruct Hm as (x & Hx & ->). exists x. split; [|done].
  by apply (Hord (m app).1).
Qed.

Lemma backedAt_new_plain (scope : ConstructRef) (id : string) (c : Construct)
    (app : gmap (string * list string) Construct) :
  match c with Function _ | CustomResource _ _ _ => False | _ => True end →
  backedAt (new scope id c) app.
Proof.
  intros Hc ref c'. unfold new.
  destruct (tryFindChild app scope id); simpl.
  - intros Hin. by apply elem_of_nil in Hin.
  - intros [= -> ->]%list_elem_of_singleton. by destruct c.
Qed.

Lemma new_ref (scope : ConstructRef) (id : string) (c : Construct)
    (app : gmap (string * list string) Construct) (this : ConstructRef) :
  completion (new scope id c app).2 = Fulfilled this → this = childRef scope id.
Proof.
  unfold new. destruct (tryFindChild app scope id); simpl; [done|]. by intros [= <-].
Qed.

Lemma backed_constructor (scope : ConstructRef) (id : string)
    (props : Ec2AcceptVpcEndpointConnectionProps) :
  backed (newEc2AcceptVpcEndpointConnection scope id props).
Proof.
  intros app. unfold newEc2AcceptVpcEndpointConnection.
  apply backedAt_bind; [by apply backedAt_new_plain|].
  intros this _. split.
  { repeat (apply orderly_bind; [|intros ?]);
      first [apply orderly_new | apply orderly_lambdaFunction | apply orderly_ret]. }
  set (app1 := (new scope id AcceptVpcEndpointConnection app).1).
  apply backedAt_bind; [by apply backedAt_new_plain|].
  intros role _. split.
  { repeat (apply orderly_bind; [|intros ?]);
      first [apply orderly_new | apply orderly_lambdaFunction | apply orderly_ret]. }
  set (app2 := (new this (resourceType +:+ "Role") (ImportedRole (roleArn props)) app1).1).
  apply backedAt_bind.
  { intros ref c.
    destruct (tryFindChild app2 (stackRef this) constructName) as [existing|] eqn:Hfind.
    - rewrite (lambdaFunction_existing _ _ _ _ Hfind). simpl.
      intros Hin. by apply elem_of_nil in Hin.
    - rewrite (lambdaFunction_first _ _ _ Hfind). simpl.
      by intros [= -> ->]%list_elem_of_singleton. }
  intros fn Hfn. split.
  { repeat (apply orderly_bind; [|intros ?]);
      first [apply orderly_new | apply orderly_ret]. }
  destruct (lambdaFunction_result this (roleArn props) app2) as (x & Hdone & Hx).
  rewrite Hdone in Hfn. injection Hfn as <-.
  apply backedAt_bind; [|intros; split; [apply orderly_ret | apply backedAt_ret]].
  intros ref c Hin.
  destruct (orderly_new this "Resource"
              (CustomResource resourceType
                 (functionArn ({| stackOf := stackOf this; pathOf := [constructName] |}, x))
                 props)
              (lambdaFunction this (roleArn props) app2).1) as (Hmono & _ & _).
  revert Hin. unfold new at 1.
  destruct (tryFindChild _ this "Resource"); simpl.
  - intros Hin. by apply elem_of_nil in Hin.
  - intros [= -> ->]%list_elem_of_singleton. simpl.
    exists x. split; [|done]. by apply Hmono.
Qed.

(** *** A program that makes several custom resources *)

Lemma orderly_constructAll (requests : list Request) : orderly (constructAll requests).
Proof.
  induction requests as [|q rest IH]; simpl; [apply orderly_ret|].
  apply orderly_bind; [apply orderly_constructor | by intros _].
Qed.

Lemma backed_constructAll (requests : list Request) : backed (constructAll requests).
Proof.
  induction requests as [|q rest IH]; intros app; simpl; [apply backedAt_ret|].
  apply backedAt_bind; [apply backed_constructor|].
  intros _ _. split; [apply orderly_constructAll | apply IH].
Qed.

(** *** Reading the events *)

Lemma elem_of_functionsCreatedIn (stack : string) (events : list Event) (ref : ConstructRef) :
  ref ∈ functionsCreatedIn stack events ↔
    stackOf ref = stack ∧ ∃ props, Created ref (Function props) ∈ events.
Proof.
  unfold functionsCreatedIn. rewrite list_elem_of_omap. split.
  - intros ([ref' c] & Hin & Hsome). destruct c; try done.
    case_decide; [|done]. injection Hsome as ->. eauto.
  - intros [Hstack [props Hin]]. exists (Created ref (Function props)).
    split; [done|]. by rewrite decide_True.
Qed.

Lemma elem_of_serviceTokensIn (stack : string) (events : list Event) (token : option string) :
  token ∈ serviceTokensIn stack events ↔
    ∃ ref type props,
      stackOf ref = stack ∧ Created ref (CustomResource type token props) ∈ events.
Proof.
  unfold serviceTokensIn. rewrite list_elem_of_omap. split.
  - intros ([ref' c] & Hin & Hsome). destruct c; try done.
    case_decide; [|done]. injection Hsome as ->. eauto.
  - intros (ref & type & props & Hstack & Hin).
    exists (Created ref (CustomResource type token props)).
    split; [done|]. by rewrite decide_True.
Qed.

Lemma NoDup_functionsCreatedIn (stack : string) (events : list Event) :
  NoDup (createdRefs events) → NoDup (functionsCreatedIn stack events).
Proof.
  induction events as [|[ref c] events IH]; simpl; [done|].
  intros [Hfresh Hrest]%NoDup_cons. specialize (IH Hrest).
  destruct c as [fnProps| | | |]; try done. case_decide; [|done].
  apply NoDup_cons. split; [|done].
  intros [_ [props Hin]]%elem_of_functionsCreatedIn.
  apply Hfresh, elem_of_createdRefs. eauto.
Qed.

(** A list without duplicates whose members are all the same has at most
    one member. *)
Lemma NoDup_constant_length {A} (l : list A) (a : A) :
  NoDup l → (∀ x, x ∈ l → x = a) → length l ≤ 1.
Proof.
  destruct l as [|x [|y l]]; simpl; [lia | lia |].
  intros [Hx _]%NoDup_cons Hall. exfalso. apply Hx.
  rewrite (Hall x), (Hall y); [left | right; left | left].
Qed.


(** *** The law on a program with four custom resources *)

Import EndpointStacks.

(** The stack [Perimeter] gets three custom resources and one function. *)
Example perimeter_functions :
  functionsCreatedIn "Perimeter" (trace synthesis.2)
  = [{| stackOf := "Perimeter"; pathOf := [constructName] |}]
  ∧ length (serviceTokensIn "Perimeter" (trace synthesis.2)) = 3.
Proof. split; reflexivity. Qed.


End AcceptVpcEndpointSpec.

(** ** The metadata service's resource policies *)

Module MetadataCollectionSpec.
  Import MetadataCollection.

Section Laws.
  Context {Account : Type}.
  Variable getAccountId : list Account → string → option string.

  Implicit Types (props : MetadataServiceProps Account).

  Local Abbreviation readers := (metadataReadOnlyRoles getAccountId).
  Local Abbreviation service := (createMetadataService getAccountId).
  Local Abbreviation olderService := (createMetadataService_older getAccountId).

Lemma elem_of_readers props (p : Principal) :
  p ∈ readers props ↔
    ∃ c r, c ∈ getIamConfigs props
           ∧ r ∈ default [] (roles (iam c))
           ∧ truthy_flag (metaDataReadOnlyAccess r) = true
           ∧ p = ArnPrincipal ("arn:aws:iam::"
                               +:+ interpolate (getAccountId (accounts props) (accountKey c))
                               +:+ ":role/" +:+ role r).
Proof.
  unfold metadataReadOnlyRoles. rewrite list_elem_of_bind. split.
  - intros (c & Hp & Hc). apply list_elem_of_bind in Hp as (r & Hp & Hr).
    destruct (truthy_flag (metaDataReadOnlyAccess r)) eqn:Hflag.
    + apply list_elem_of_singleton in Hp. by exists c, r.
    + by apply elem_of_nil in Hp.
  - intros (c & r & Hc & Hr & Hflag & ->). exists c. split; [|done].
    apply list_elem_of_bind. exists r. split; [|done].
    rewrite Hflag. by apply list_elem_of_singleton.
Qed.

Lemma readers_nonempty props :
  0 < length (readers props) ↔ hasReadOnlyRole props.
Proof.
  split.
  - destruct (readers props) as [|p l] eqn:Hl; simpl; [lia|]. intros _.
    assert (p ∈ readers props) as (c & r & Hc & Hr & Hflag & _)%elem_of_readers
      by (rewrite Hl; left).
    by exists c, r.
  - intros (c & r & Hc & Hr & Hflag).
    assert (ArnPrincipal ("arn:aws:iam::"
                          +:+ interpolate (getAccountId (accounts props) (accountKey c))
                          +:+ ":role/" +:+ role r) ∈ readers props) as Hin.
    { apply elem_of_readers. by exists c, r. }
    destruct (readers props); [by apply elem_of_nil in Hin | simpl; lia].
Qed.


End Laws.

(** *** The law on two configurations *)

Import MetadataConfigs.

Lemma withReader_has_reader : hasReadOnlyRole withReader.
Proof.
  exists {| accountKey := "security";
            iam := {| roles := Some [{| role := "Auditor";
                                        metaDataReadOnlyAccess := Some true |}] |} |},
         {| role := "Auditor"; metaDataReadOnlyAccess := Some true |}.
  split; [simpl; repeat constructor|]. split; [simpl; repeat constructor | reflexivity].
Defined.

Lemma withoutReader_has_no_reader : ¬ hasReadOnlyRole withoutReader.
Proof.
  intros (c & r & Hc & Hr & Hflag). simpl in Hc.
  apply elem_of_cons in Hc as [->|Hc]; simpl in Hr.
  - apply list_elem_of_singleton in Hr as ->. discriminate.
  - apply list_elem_of_singleton in Hc as ->. by apply elem_of_nil in Hr.
Defined.


End MetadataCollectionSpec.

(** ** Further laws of the create-stack handler *)

Module CreateStackCallsSpec.
  Import CreateStack CreateStackCalls CreateStackSpec.

Section Laws.
  Context {StackTemplateLocation Account Credentials CfnParameters : Type}.
  Variable toParameters : list (string * string) → CfnParameters.

  Implicit Types (w : World StackTemplateLocation Account Credentials CfnParameters).
  Implicit Types (input : CreateStackInput StackTemplateLocation).

  Local Abbreviation handle := (handler toParameters).

Ltac run_out :=
  unfold delegations, resolutions, submissions, externalCalls, submitted, skipped,
    run_bind, emit, call, run_ret; simpl.

(** The whole run, split by the answers of the collaborators. *)
Ltac run_cases w input :=
  let Hex := fresh "Hex" in
  let Hsel := fresh "Hsel" in
  destruct (excluded input) eqn:Hex;
  [ rewrite (handler_excluded toParameters w input Hex)
  | rewrite (handler_proceeds toParameters w input Hex);
    destruct (truthy (accountId input) && truthy (assumeRoleName input)) eqn:Hsel;
    [ let a := fresh "a" in
      let role := fresh "role" in
      destruct (cloudFormationFor_delegated w input Hsel) as (a & role & _ & _ & ->);
      run_out;
      destruct (loadAccounts w (parametersTableName input)); simpl;
      [ destruct (getTemplateBody w (stackTemplate input)); simpl;
        [ destruct (getCredentialsForAccountAndRole w a role); simpl;
          [ destruct (createOrUpdateStack w _ _) as [[]|] eqn:?; simpl | ] | ] | ]
    | rewrite (cloudFormationFor_ambient w input Hsel);
      run_out;
      destruct (loadAccounts w (parametersTableName input)); simpl;
      [ destruct (getTemplateBody w (stackTemplate input)); simpl;
        [ destruct (createOrUpdateStack w _ _) as [[]|] eqn:?; simpl | ] | ] ] ].

(** X1. The handler passes the request on as it came: a create-or-update
    found in the trace carries the stack name and the capabilities of the
    input and its parameters, converted; and a run makes at most one. *)
Theorem submission_passes_request_through w input :
  length (submissions (handle w input)) ≤ 1
  ∧ ∀ cfn req,
      CreateOrUpdateStack cfn req ∈ trace (handle w input) →
      StackName req = stackName input
      ∧ Capabilities req = stackCapabilities input
      ∧ Parameters req = toParameters (stackParameters input).
Proof.
  run_cases w input; run_out;
    (split; [lia|]); intros cfn req Hin;
    repeat (apply elem_of_cons in Hin as [Hin|Hin]; [try discriminate|]);
    try (by apply elem_of_nil in Hin);
    by injection Hin as -> ->.
Qed.

(** X2. A failure of the account directory is fatal to the run: the run is
    rejected with the directory's error, and neither the template store nor
    the trust provider nor the deployment-unit provider is called. *)
Theorem directory_failure_is_fatal w input e :
  excluded input = false →
  loadAccounts w (parametersTableName input) = Rejected e →
  completion (handle w input) = Rejected e
  ∧ externalCalls (handle w input) = [LoadAccounts (parametersTableName input)].
Proof.
  intros Hex He. rewrite (handler_proceeds toParameters w input Hex).
  run_out. by rewrite He.
Qed.

(** X3. The accounts the directory returns are loaded and logged, and never
    used: with any two directories that answer, the handler makes the same
    calls and settles the same way. *)
Theorem loaded_accounts_are_not_used w input directory1 directory2 accounts1 accounts2 :
  directory1 (parametersTableName input) = Fulfilled accounts1 →
  directory2 (parametersTableName input) = Fulfilled accounts2 →
  externalCalls (handle (withDirectory w directory1) input)
  = externalCalls (handle (withDirectory w directory2) input)
  ∧ completion (handle (withDirectory w directory1) input)
    = completion (handle (withDirectory w directory2) input).
Proof.
  intros H1 H2. destruct (excluded input) eqn:Hex.
  { by rewrite !(handler_excluded toParameters _ input Hex). }
  rewrite !(handler_proceeds toParameters _ input Hex).
  unfold cloudFormationFor. run_out. rewrite H1, H2. simpl.
  destruct (getTemplateBody w (stackTemplate input)); simpl; [|done].
  destruct (truthy (accountId input) && truthy (assumeRoleName input)); simpl;
    [destruct (accountId input), (assumeRoleName input); simpl;
     try destruct (getCredentialsForAccountAndRole w _ _); simpl|];
    try done;
    by destruct (createOrUpdateStack w _ _).
Qed.

(** X4. The provider's verdict is the run's verdict. A create-or-update, when
    the run makes one, is the last thing the run does, and the run is
    fulfilled or rejected as the provider answered it. A fulfilled run was
    either skipped or has submitted its stack: nothing else ends well. *)
Theorem provider_verdict_is_run_verdict w input :
  (∀ cfn req,
     CreateOrUpdateStack cfn req ∈ trace (handle w input) →
     last (trace (handle w input)) = Some (CreateOrUpdateStack cfn req)
     ∧ completion (handle w input) = verdict (createOrUpdateStack w cfn req))
  ∧ (completion (handle w input) = Fulfilled undefined →
     skipped (handle w input) ∨ submitted (handle w input)).
Proof.
  run_cases w input; run_out; split;
    try (intros cfn req Hin;
         repeat (apply elem_of_cons in Hin as [Hin|Hin]; [try discriminate|]);
         try (by apply elem_of_nil in Hin);
         injection Hin as -> ->;
         match goal with H : createOrUpdateStack _ _ _ = _ |- _ => rewrite H end;
         by split);
    try discriminate;
    intros _; first [by left | right; eexists _, _; repeat constructor].
Qed.

(** X5. The region of a request only binds a delegated client. When the
    account or the role is missing the client is the ambient one, and two
    requests that differ in their region alone, neither of them excluded,
    make the same calls and settle the same way. *)
Theorem region_only_binds_delegated_client w input r :
  excluded input = false →
  excluded (withRegion input r) = false →
  truthy (accountId input) && truthy (assumeRoleName input) = false →
  externalCalls (handle w (withRegion input r)) = externalCalls (handle w input)
  ∧ completion (handle w (withRegion input r)) = completion (handle w input).
Proof.
  intros Hex Hex' Hsel.
  rewrite (handler_proceeds toParameters w input Hex).
  rewrite (handler_proceeds toParameters w (withRegion input r) Hex').
  rewrite !cloudFormationFor_ambient by done.
  run_out.
  destruct (loadAccounts w (parametersTableName input)); simpl; [|done].
  destruct (getTemplateBody w (stackTemplate input)); simpl; [|done].
  by destruct (createOrUpdateStack w _ _).
Qed.

(** X6. The collaborators are called in one order and at most once each:
    account directory, template store, trust provider, deployment-unit
    provider. Whatever the input and the answers, the stages of the calls of
    a run are strictly increasing. *)
Theorem calls_in_fixed_order w input :
  StronglySorted lt (phase <$> externalCalls (handle w input)).
Proof.
  run_cases w input; run_out;
    repeat first [ apply SSorted_nil | apply SSorted_cons
                 | apply List.Forall_nil | apply List.Forall_cons; [simpl; lia|] ].
Qed.

End Laws.

(** *** The laws on concrete requests *)

Import Scenarios MoreScenarios.

Lemma directory_failure_witness :
  completion (run directoryDown toOtherAccount) = Rejected "ResourceNotFoundException"
  ∧ externalCalls (run directoryDown toOtherAccount) = [LoadAccounts "PBMMAccel-Parameters"].
Proof.
  apply (directory_failure_is_fatal (λ p, p) directoryDown toOtherAccount
           "ResourceNotFoundException"); reflexivity.
Defined.

Lemma loaded_accounts_witness :
  externalCalls (run (withDirectory friendly smallDirectory) toOtherAccount)
  = externalCalls (run (withDirectory friendly largeDirectory) toOtherAccount)
  ∧ completion (run (withDirectory friendly smallDirectory) toOtherAccount)
    = completion (run (withDirectory friendly largeDirectory) toOtherAccount).
Proof.
  apply (loaded_accounts_are_not_used (λ p, p) friendly toOtherAccount
           smallDirectory largeDirectory ["ops"] ["ops"; "shared"; "dev"; "test"]);
    reflexivity.
Defined.

Lemma region_witness :
  externalCalls (run friendly (withRegion withoutAccount (Some "us-west-2")))
  = externalCalls (run friendly withoutAccount)
  ∧ completion (run friendly (withRegion withoutAccount (Some "us-west-2")))
    = completion (run friendly withoutAccount).
Proof.
  apply (region_only_binds_delegated_client (λ p, p) friendly withoutAccount
           (Some "us-west-2")); reflexivity.
Defined.

End CreateStackCallsSpec.

(** ** Further laws of the default EBS keys and public-access blocks *)

Module DefaultsStep1ResultSpec.
  Import DefaultsStep1 DefaultsStep1Spec.

(** *** The order of [Array.from(new Set(l))] *)

Lemma foldl_setAdd_fresh (l members : list string) :
  NoDup (members ++ l) → foldl setAdd members l = members ++ l.
Proof.
  revert members. induction l as [|x l IH]; intros members Hnd; simpl.
  - by rewrite app_nil_r.
  - assert (x ∉ members) as Hx.
    { apply NoDup_app in Hnd as (_ & Hdisjoint & _). intros Hin.
      apply (Hdisjoint x Hin). left. }
    unfold setAdd at 2. rewrite decide_False by done.
    rewrite IH; [by rewrite <- app_assoc|]. by rewrite <- app_assoc.
Qed.

Lemma foldl_setAdd_sublist (l members : list string) :
  ∃ added, foldl setAdd members l = members ++ added ∧ sublist added l.
Proof.
  revert members. induction l as [|x l IH]; intros members; simpl.
  - exists []. by rewrite app_nil_r.
  - destruct (IH (setAdd members x)) as (added & -> & Hsub).
    unfold setAdd. case_decide.
    + exists added. split; [done|]. by apply sublist_cons.
    + exists (x :: added). split; [by rewrite <- app_assoc|]. by apply sublist_skip.
Qed.

Section Laws.
  Context {AccountStack Account VpcConfig : Type}.
  Variable vpcRegion : VpcConfig → string.
  Variable getVpcSharedAccountKeys : list Account → VpcConfig → option string → list string.
  Variable createEncryptionKeyName : string → string.

  Implicit Types (props : DefaultsStep1Props AccountStack Account VpcConfig).
  Implicit Types (c : ResolvedVpcConfig VpcConfig).
  Implicit Types (stacks : AccountStacks AccountStack).
  Implicit Types (st : EbsState AccountStack).
  Implicit Types (a r region : string).

  Local Abbreviation step := (ebsForAccount createEncryptionKeyName).
  Local Abbreviation serve := (ebsServe createEncryptionKeyName).
  Local Abbreviation keyIn := (ebsDefaultEncryptionKey createEncryptionKeyName).
  Local Abbreviation requests := (ebsRequests vpcRegion getVpcSharedAccountKeys).
  Local Abbreviation createKeys :=
    (createDefaultEbsEncryptionKey vpcRegion getVpcSharedAccountKeys createEncryptionKeyName).

(** X11. [Array.from(new Set(l))] keeps the first occurrence of every member,
    in the order of [l]: it is a sublist of [l], leaves a list without
    duplicates as it is, and changes nothing when applied twice. So the
    accounts of a VPC are visited in the order the sharing predicate first
    names them, and the owner last, unless the predicate names the owner. *)
Theorem array_from_set_keeps_first_occurrences (l : list string)
    (accounts : list Account) c :
  sublist (arrayFromSet l) l
  ∧ (NoDup l → arrayFromSet l = l)
  ∧ arrayFromSet (arrayFromSet l) = arrayFromSet l
  ∧ accountKeysFor getVpcSharedAccountKeys accounts c
    = arrayFromSet (getVpcSharedAccountKeys accounts (vpcConfig c) (ouKey c))
      ++ (if decide (accountKey c ∈ getVpcSharedAccountKeys accounts (vpcConfig c) (ouKey c))
          then [] else [accountKey c]).
Proof.
  split; [|split; [|split]].
  - unfold arrayFromSet. by destruct (foldl_setAdd_sublist l []) as (added & -> & Hsub).
  - intros Hnd. apply (foldl_setAdd_fresh l []). done.
  - apply (foldl_setAdd_fresh (arrayFromSet l) []). simpl. apply NoDup_arrayFromSet.
  - unfold accountKeysFor, arrayFromSet. rewrite foldl_snoc.
    fold (arrayFromSet (getVpcSharedAccountKeys accounts (vpcConfig c) (ouKey c))).
    unfold setAdd. case_decide as Hin; case_decide as Hin'.
    + by rewrite app_nil_r.
    + exfalso. apply Hin'. by apply elem_of_arrayFromSet.
    + exfalso. apply Hin. by apply elem_of_arrayFromSet.
    + done.
Qed.

(** *** Where a recorded key comes from *)

Lemma step_recorded_source stacks region st a a' r' (key : KmsKey AccountStack) :
  lookupKey (accountEbsEncryptionKeys (step stacks region st a)) a' r' = Some key →
  lookupKey (accountEbsEncryptionKeys st) a' r' = Some key ∨ (a', r') = (a, region).
Proof.
  unfold ebsForAccount.
  destruct (lookupKey (accountEbsEncryptionKeys st) a region); [by left|].
  destruct (tryGetOrCreateAccountStack stacks a (Some region)); [|by left].
  simpl. destruct (decide ((a', r') = (a, region))) as [|Hne]; [by right|].
  rewrite lookupKey_recordKey_other by done. by left.
Qed.

Lemma serve_all_recorded_source stacks (l : list (string * string)) st a r
    (key : KmsKey AccountStack) :
  lookupKey (accountEbsEncryptionKeys (foldl (serve stacks) st l)) a r = Some key →
  lookupKey (accountEbsEncryptionKeys st) a r = Some key ∨ (a, r) ∈ l.
Proof.
  revert st. induction l as [|[a0 r0] l IH]; intros st Hkey; [by left|].
  simpl in Hkey. destruct (IH _ Hkey) as [Hkey'|Hin]; [|right; by right].
  apply step_recorded_source in Hkey' as [Hst|[= -> ->]]; [by left | right; left].
Qed.

Lemma recorded_key_spec props a r (key : KmsKey AccountStack) :
  lookupKey (accountEbsEncryptionKeys (createKeys props)) a r = Some key ↔
    (a, r) ∈ requests props
    ∧ ∃ accountStack,
        tryGetOrCreateAccountStack (accountStacks props) a (Some r) = Some accountStack
        ∧ key = keyIn accountStack.
Proof.
  destruct (createKeys_consistent vpcRegion getVpcSharedAccountKeys
              createEncryptionKeyName props) as (_ & Hrecorded & _).
  split.
  - intros Hkey. split.
    + rewrite createKeys_requests in Hkey.
      apply serve_all_recorded_source in Hkey as [Hkey|Hin]; [|done].
      unfold lookupKey in Hkey. simpl in Hkey. by rewrite lookup_empty in Hkey.
    + destruct (Hrecorded a r key Hkey) as (s & Hs & -> & _). by exists s.
  - intros (Hreq & accountStack & Hstack & ->).
    pose proof (serve_all_serves createEncryptionKeyName (accountStacks props)
                  (requests props)
                  {| accountEbsEncryptionKeys := ∅; ebsLog := [] |} a r Hreq) as Hserved.
    rewrite <- createKeys_requests in Hserved.
    destruct Hserved as [[key Hkey]|[Hnone _]]; [|congruence].
    destruct (Hrecorded a r key Hkey) as (s & Hs & -> & _). congruence.
Qed.


(** *** The result object has no empty entry *)

Lemma step_inner_nonempty stacks region st a :
  (∀ a' inner, accountEbsEncryptionKeys st !! a' = Some inner → inner ≠ ∅) →
  ∀ a' inner, accountEbsEncryptionKeys (step stacks region st a) !! a' = Some inner →
              inner ≠ ∅.
Proof.
  intros Hst a' inner. unfold ebsForAccount.
  destruct (lookupKey (accountEbsEncryptionKeys st) a region); [apply Hst|].
  destruct (tryGetOrCreateAccountStack stacks a (Some region)); [|apply Hst].
  simpl. unfold recordKey. destruct (decide (a = a')) as [<-|Hne].
  - rewrite lookup_insert_eq. intros [= <-]. apply insert_non_empty.
  - rewrite lookup_insert_ne by done. apply Hst.
Qed.

Lemma createKeys_inner_nonempty props a (inner : gmap string (KmsKey AccountStack)) :
  accountEbsEncryptionKeys (createKeys props) !! a = Some inner → inner ≠ ∅.
Proof.
  rewrite createKeys_requests. revert a inner.
  generalize (requests props).
  assert (∀ a inner,
            accountEbsEncryptionKeys
              ({| accountEbsEncryptionKeys := ∅; ebsLog := [] |} : EbsState AccountStack)
              !! a = Some inner → inner ≠ ∅) as Hinit.
  { intros a inner. simpl. by rewrite lookup_empty. }
  revert Hinit.
  generalize ({| accountEbsEncryptionKeys := ∅; ebsLog := [] |} : EbsState AccountStack).
  intros st Hst l. revert st Hst.
  induction l as [|[a0 r0] l IH]; intros st Hst; [done|].
  simpl. apply IH. by apply step_inner_nonempty.
Qed.


(** [blockS3PublicAccess] answers the account configurations one by one and
    in their order: one event per entry. *)
Lemma blockS3PublicAccess_fmap props :
  blockS3PublicAccess props =
    (λ entry : string * AccountConfig,
       match tryGetOrCreateAccountStack (accountStacks props) entry.1 None with
       | Some accountStack =>
           NewS3PublicAccessBlock accountStack "PublicAccessBlock"
             (publicAccessBlock (negb (truthy_flag (enableS3PublicAccess entry.2))))
       | None => ConsoleWarn ("Cannot find account stack " +:+ entry.1)
       end) <$> getAccountConfigs (config props).
Proof.
  rewrite blockS3PublicAccess_bind.
  induction (getAccountConfigs (config props)) as [|[k accountConfig] l IH]; [done|].
  rewrite bind_cons, fmap_cons, IH. simpl.
  by destruct (tryGetOrCreateAccountStack (accountStacks props) k None).
Qed.

(** X10. Every public-access block is made under the one id
    [PublicAccessBlock] of its account's stack, so two of them in one stack
    would collide. When the account configurations have distinct keys and
    the registry hands distinct accounts distinct stacks, that does not
    happen: two public-access blocks of a run with the same scope are one
    and the same construct, and the run makes one event per configured
    account. *)
Theorem public_access_block_once_per_stack props :
  NoDup (getAccountConfigs (config props)).*1 →
  (∀ a a' accountStack,
     tryGetOrCreateAccountStack (accountStacks props) a None = Some accountStack →
     tryGetOrCreateAccountStack (accountStacks props) a' None = Some accountStack →
     a = a') →
  length (blockS3PublicAccess props) = length (getAccountConfigs (config props))
  ∧ ∀ i j (accountStack : AccountStack) id id' settings settings',
      blockS3PublicAccess props !! i
      = Some (NewS3PublicAccessBlock accountStack id settings) →
      blockS3PublicAccess props !! j
      = Some (NewS3PublicAccessBlock accountStack id' settings') →
      i = j ∧ id = "PublicAccessBlock".
Proof.
  intros Hkeys Hinj. rewrite blockS3PublicAccess_fmap. split; [by rewrite length_fmap|].
  intros i j accountStack id id' settings settings' Hi Hj.
  rewrite list_lookup_fmap in Hi. rewrite list_lookup_fmap in Hj.
  destruct (getAccountConfigs (config props) !! i) as [[a c]|] eqn:Hai; [|discriminate].
  destruct (getAccountConfigs (config props) !! j) as [[a' c']|] eqn:Haj; [|discriminate].
  simpl in Hi, Hj.
  destruct (tryGetOrCreateAccountStack (accountStacks props) a None) as [s|] eqn:Hs;
    [|discriminate].
  destruct (tryGetOrCreateAccountStack (accountStacks props) a' None) as [s'|] eqn:Hs';
    [|discriminate].
  injection Hi as -> <- _. injection Hj as -> _ _.
  split; [|reflexivity].
  assert (a = a') as <- by (by apply (Hinj a a' accountStack)).
  apply (NoDup_lookup _ i j a Hkeys); rewrite list_lookup_fmap.
  - by rewrite Hai.
  - by rewrite Haj.
Qed.

End Laws.

(** *** The laws on the landing zone *)

Import LandingZone LandingZoneVariants.


Lemma targetRegistry_distinct (a r a' r' : string) (accountStack : string * string) :
  tryGetOrCreateAccountStack targetRegistry a (Some r) = Some accountStack →
  tryGetOrCreateAccountStack targetRegistry a' (Some r') = Some accountStack →
  (a, r) = (a', r').
Proof.
  simpl. repeat case_decide; try discriminate. by intros [= <-] [= <- <-].
Defined.

Lemma once_per_stack_witness :
  length (blockS3PublicAccess overTargets) = 3
  ∧ ∀ i j (accountStack : string * string) id id' settings settings',
      blockS3PublicAccess overTargets !! i
      = Some (NewS3PublicAccessBlock accountStack id settings) →
      blockS3PublicAccess overTargets !! j
      = Some (NewS3PublicAccessBlock accountStack id' settings') →
      i = j ∧ id = "PublicAccessBlock".
Proof.
  apply (public_access_block_once_per_stack overTargets).
  - apply (bool_decide_unpack _). by vm_compute.
  - simpl. intros a a' accountStack. repeat case_decide; try discriminate.
    by intros [= <-] [= <-].
Defined.

Lemma one_key_per_stack_witness :
  (("dev", "ca-central-1", NewKey (ebsDefaultEncryptionKey keyName ("dev", "ca-central-1")))
     ∈ ebsLog (createDefaultEbsEncryptionKey (λ vpc, vpc) sharing keyName overTargets))
  ∧ (∀ i j a r a' r' (key key' : KmsKey (string * string)),
       ebsLog (createDefaultEbsEncryptionKey (λ vpc, vpc) sharing keyName overTargets) !! i
       = Some (a, r, NewKey key) →
       ebsLog (createDefaultEbsEncryptionKey (λ vpc, vpc) sharing keyName overTargets) !! j
       = Some (a', r', NewKey key') →
       keyScope key = keyScope key' →
       i = j).
Proof.
  split.
  - vm_compute. repeat constructor.
  - apply (one_ebs_key_per_stack (λ vpc, vpc) sharing keyName overTargets).
    exact targetRegistry_distinct.
Defined.

End DefaultsStep1ResultSpec.

(** ** Further laws of the custom resource *)

Module AcceptVpcEndpointMoreSpec.
  Import AcceptVpcEndpoint AcceptVpcEndpointSpec.
  Local Open Scope cdk_scope.

Lemma new_fresh (scope : ConstructRef) (id : string) (c : Construct)
    (app : gmap (string * list string) Construct) :
  tryFindChild app scope id = None →
  new scope id c app =
    (<[(stackOf scope, pathOf scope ++ [id]) := c]> app,
     MkRun [Created (childRef scope id) c] (Fulfilled (childRef scope id))).
Proof. intros H. unfold new. by rewrite H. Qed.

Lemma new_taken (scope : ConstructRef) (id : string) (c : Construct)
    (app : gmap (string * list string) Construct) (x : Construct) :
  tryFindChild app scope id = Some x →
  new scope id c app =
    (app, MkRun [] (Rejected ("There is already a Construct with name '" +:+ id +:+ "'"))).
Proof. intros H. unfold new. by rewrite H. Qed.


Ltac differ_in_length :=
  let Heq := fresh "Heq" in
  intros [= Heq]; apply (f_equal length) in Heq;
  rewrite ?length_app in Heq; simpl in Heq; lia.

(** The tree and the function the getter hands back, in both of its cases. *)
Lemma lambdaFunction_cases (this : ConstructRef) (roleArn : string)
    (app : gmap (string * list string) Construct) :
  ∃ x app',
    lambdaFunction this roleArn app =
      (app',
       MkRun (match app !! (stackOf this, [constructName]) with
              | Some _ => []
              | None => [Created (childRef (stackRef this) constructName) x]
              end)
             (Fulfilled ({| stackOf := stackOf this; pathOf := [constructName] |}, x)))
    ∧ app' !! (stackOf this, [constructName]) = Some x
    ∧ (∀ key, key ≠ (stackOf this, [constructName]) → app' !! key = app !! key)
    ∧ (app !! (stackOf this, [constructName]) = None →
       ∃ props, role props = roleArn ∧ x = Function props).
Proof.
  destruct (tryFindChild app (stackRef this) constructName) as [existing|] eqn:Hfind.
  - rewrite (lambdaFunction_existing _ _ _ _ Hfind).
    unfold tryFindChild in Hfind. simpl in Hfind. rewrite Hfind.
    exists existing, app. repeat split; try done.
  - rewrite (lambdaFunction_first _ _ _ Hfind).
    unfold tryFindChild in Hfind. simpl in Hfind. rewrite Hfind.
    eexists _, _. split; [reflexivity|]. split; [apply lookup_insert_eq|]. split.
    + intros key Hne. rewrite lookup_insert_ne; [done|]. intros Heq. by apply Hne.
    + intros _. eexists. split; [|reflexivity]. reflexivity.
Qed.

(** What one constructor call leaves behind, under a free id. *)
Lemma constructor_outcome (scope : ConstructRef) (id : string)
    (props : Ec2AcceptVpcEndpointConnectionProps)
    (app : gmap (string * list string) Construct) :
  tryFindChild app scope id = None →
  (∀ child, tryFindChild app (childRef scope id) child = None) →
  ∃ x,
    completion (newEc2AcceptVpcEndpointConnection scope id props app).2
    = Fulfilled (childRef scope id)
    ∧ tryFindChild (newEc2AcceptVpcEndpointConnection scope id props app).1 scope id
      = Some AcceptVpcEndpointConnection
    ∧ tryFindChild (newEc2AcceptVpcEndpointConnection scope id props app).1
        (childRef scope id) (resourceType +:+ "Role")
      = Some (ImportedRole (roleArn props))
    ∧ tryFindChild (newEc2AcceptVpcEndpointConnection scope id props app).1
        (stackRef scope) constructName
      = Some x
    ∧ tryFindChild (newEc2AcceptVpcEndpointConnection scope id props app).1
        (childRef scope id) "Resource"
      = Some (CustomResource resourceType
                (functionArn ({| stackOf := stackOf scope; pathOf := [constructName] |}, x))
                props)
    ∧ (∀ key y, app !! key = Some y →
                (newEc2AcceptVpcEndpointConnection scope id props app).1 !! key = Some y)
    ∧ (tryFindChild app (stackRef scope) constructName = None →
       ¬ (pathOf scope = [] ∧ id = constructName) →
       ∃ fnProps, role fnProps = roleArn props ∧ x = Function fnProps).
Proof.
  intros Hfree Hbelow.
  destruct (orderly_constructor scope id props app) as (Hmono & Hnew & _).
  unfold newEc2AcceptVpcEndpointConnection in *.
  rewrite cdk_bind_unfold in *. rewrite (new_fresh _ _ _ _ Hfree) in *. simpl in *.
  set (this := childRef scope id) in *.
  set (app1 := <[(stackOf scope, pathOf scope ++ [id]) := AcceptVpcEndpointConnection]> app)
    in *.
  assert (tryFindChild app1 this (resourceType +:+ "Role") = None) as Hrole.
  { unfold tryFindChild, app1. simpl. rewrite lookup_insert_ne by differ_in_length.
    apply (Hbelow (resourceType +:+ "Role")). }
  rewrite cdk_bind_unfold in *. rewrite (new_fresh _ _ _ _ Hrole) in *. simpl in *.
  set (app2 := <[(stackOf scope, (pathOf scope ++ [id]) ++ [resourceType +:+ "Role"])
                 := ImportedRole (roleArn props)]> app1) in *.
  rewrite cdk_bind_unfold in *.
  destruct (lambdaFunction_cases this (roleArn props) app2)
    as (x & app3 & Hgetter & Hx & Hrest & Hfirst).
  rewrite Hgetter in *. simpl in *.
  assert (tryFindChild app3 this "Resource" = None) as Hresource.
  { unfold tryFindChild. simpl. rewrite Hrest by differ_in_length.
    unfold app2. rewrite lookup_insert_ne by (intros [= Heq]; simplify_list_eq).
    unfold app1. rewrite lookup_insert_ne by differ_in_length.
    apply (Hbelow "Resource"). }
  rewrite cdk_bind_unfold in *. rewrite (new_fresh _ _ _ _ Hresource) in *. simpl in *.
  exists x. split; [done|]. unfold tryFindChild. simpl.
  split; [|split; [|split; [|split; [|split]]]].
  - apply (Hnew this AcceptVpcEndpointConnection). left.
  - apply (Hnew (childRef this (resourceType +:+ "Role")) (ImportedRole (roleArn props))).
    right. left.
  - rewrite lookup_insert_ne by differ_in_length. exact Hx.
  - apply lookup_insert_eq.
  - exact Hmono.
  - intros Hnone Hself. apply Hfirst.
    unfold app2. rewrite lookup_insert_ne by differ_in_length.
    unfold app1. rewrite lookup_insert_ne; [done|].
    intros [= Heq]. apply Hself.
    destruct (pathOf scope) as [|y [|z path]]; simpl in Heq.
    + by injection Heq as ->.
    + discriminate.
    + discriminate.
Qed.

(** X13. Construct, then find. Under a free id, in a scope with nothing yet
    below the new construct, the constructor completes, and afterwards the
    tree holds the construct under its id, below it the imported role and
    the custom resource, and the resource carries the properties it was
    given and, as service token, the ARN of what sits under the function's
    name in the stack. Nothing that was in the tree is replaced. *)
Theorem construct_then_find (scope : ConstructRef) (id : string)
    (props : Ec2AcceptVpcEndpointConnectionProps)
    (app : gmap (string * list string) Construct) :
  tryFindChild app scope id = None →
  (∀ child, tryFindChild app (childRef scope id) child = None) →
  ∃ x,
    completion (newEc2AcceptVpcEndpointConnection scope id props app).2
    = Fulfilled (childRef scope id)
    ∧ tryFindChild (newEc2AcceptVpcEndpointConnection scope id props app).1 scope id
      = Some AcceptVpcEndpointConnection
    ∧ tryFindChild (newEc2AcceptVpcEndpointConnection scope id props app).1
        (childRef scope id) (resourceType +:+ "Role")
      = Some (ImportedRole (roleArn props))
    ∧ tryFindChild (newEc2AcceptVpcEndpointConnection scope id props app).1
        (stackRef scope) constructName
      = Some x
    ∧ tryFindChild (newEc2AcceptVpcEndpointConnection scope id props app).1
        (childRef scope id) "Resource"
      = Some (CustomResource resourceType
                (functionArn ({| stackOf := stackOf scope; pathOf := [constructName] |}, x))
                props)
    ∧ (∀ key y, app !! key = Some y →
                (newEc2AcceptVpcEndpointConnection scope id props app).1 !! key = Some y).
Proof.
  intros Hfree Hbelow.
  destruct (constructor_outcome scope id props app Hfree Hbelow)
    as (x & Hdone & Hthis & Hrole & Hfn & Hres & Hkeep & _).
  by exists x.
Qed.

(** X14. The first construct of a stack fixes the role of the function. When
    a stack has no function yet, the first construct made in it creates the
    function with the role of its own [roleArn]; the constructs made after
    it, whatever their [roleArn], reuse that function and leave its role as
    it is. *)
Theorem first_construct_fixes_function_role (q : Request) (rest : list Request)
    (app : gmap (string * list string) Construct) :
  tryFindChild app (stackRef (reqScope q)) constructName = None →
  tryFindChild app (reqScope q) (reqId q) = None →
  (∀ child, tryFindChild app (childRef (reqScope q) (reqId q)) child = None) →
  ¬ (pathOf (reqScope q) = [] ∧ reqId q = constructName) →
  ∃ fnProps,
    role fnProps = roleArn (reqProps q)
    ∧ tryFindChild (constructAll (q :: rest) app).1 (stackRef (reqScope q)) constructName
      = Some (Function fnProps).
Proof.
  intros Hnone Hfree Hbelow Hself.
  destruct (constructor_outcome _ _ (reqProps q) app Hfree Hbelow)
    as (x & Hdone & _ & _ & Hfn & _ & _ & Hfirst).
  destruct (Hfirst Hnone Hself) as (fnProps & Hrole & ->).
  exists fnProps. split; [done|].
  simpl. rewrite cdk_bind_unfold, Hdone. simpl.
  by apply (orderly_constructAll rest).
Qed.

(** X15. A construct that takes the function's name shadows the function.
    When the first construct of a stack is made directly in the stack under
    the id the getter looks for, the getter finds that construct itself: no
    function is ever created in the stack, and every custom resource made in
    it, by this construct or a later one, has no service token. *)
Theorem self_named_construct_shadows_function (stack : string)
    (props : Ec2AcceptVpcEndpointConnectionProps) (rest : list Request)
    (app : gmap (string * list string) Construct) :
  tryFindChild app {| stackOf := stack; pathOf := [] |} constructName = None →
  (∀ child,
     tryFindChild app {| stackOf := stack; pathOf := [constructName] |} child = None) →
  functionsCreatedIn stack
    (trace (constructAll
              ({| reqScope := {| stackOf := stack; pathOf := [] |};
                  reqId := constructName; reqProps := props |} :: rest) app).2) = []
  ∧ ∀ token,
      token ∈ serviceTokensIn stack
        (trace (constructAll
                  ({| reqScope := {| stackOf := stack; pathOf := [] |};
                      reqId := constructName; reqProps := props |} :: rest) app).2) →
      token = None.
Proof.
  intros Hfree Hbelow.
  set (q := {| reqScope := {| stackOf := stack; pathOf := [] |};
               reqId := constructName; reqProps := props |}).
  destruct (constructor_outcome _ _ props app Hfree Hbelow)
    as (x & Hdone & Hthis & _).
  assert ((constructAll (q :: rest) app).1 !! (stack, [constructName])
          = Some AcceptVpcEndpointConnection) as Hshadow.
  { simpl. rewrite cdk_bind_unfold, Hdone. simpl.
    by apply (orderly_constructAll rest). }
  destruct (orderly_constructAll (q :: rest) app) as (_ & Hnew & _).
  pose proof (backed_constructAll (q :: rest) app) as Hbacked.
  split.
  - destruct (functionsCreatedIn stack _) as [|[s path] l] eqn:Hl; [done|]. exfalso.
    assert ({| stackOf := s; pathOf := path |}
            ∈ functionsCreatedIn stack (trace (constructAll (q :: rest) app).2)) as Hin
      by (rewrite Hl; left).
    apply elem_of_functionsCreatedIn in Hin as [Hs [fnProps Hin]]. simpl in Hs. subst s.
    pose proof (Hbacked _ _ Hin) as Hpath. simpl in Hpath. subst path.
    destruct (Hnew _ _ Hin) as [_ Hafter]. unfold refKey in Hafter.
    cbn [stackOf pathOf] in Hafter. rewrite Hshadow in Hafter. discriminate.
  - intros token (ref & type & props' & Hs & Hin)%elem_of_serviceTokensIn.
    destruct (Hbacked _ _ Hin) as (y & Hy & ->). rewrite Hs in Hy.
    rewrite Hshadow in Hy. by injection Hy as <-.
Qed.

(** *** The laws on concrete trees *)

Import EndpointStacks.


Lemma construct_then_find_witness :
  ∃ x,
    completion (newEc2AcceptVpcEndpointConnection
                  {| stackOf := "Perimeter"; pathOf := [] |} "AcceptNlb"
                  (reqProps (accept "Perimeter" [] "AcceptNlb" "vpce-svc-1")) ∅).2
    = Fulfilled {| stackOf := "Perimeter"; pathOf := ["AcceptNlb"] |}
    ∧ tryFindChild (newEc2AcceptVpcEndpointConnection
                      {| stackOf := "Perimeter"; pathOf := [] |} "AcceptNlb"
                      (reqProps (accept "Perimeter" [] "AcceptNlb" "vpce-svc-1")) ∅).1
        {| stackOf := "Perimeter"; pathOf := [] |} constructName
      = Some x.
Proof.
  destruct (construct_then_find {| stackOf := "Perimeter"; pathOf := [] |} "AcceptNlb"
              (reqProps (accept "Perimeter" [] "AcceptNlb" "vpce-svc-1")) ∅)
    as (x & Hdone & _ & _ & Hfn & _).
  - reflexivity.
  - intros child. apply lookup_empty.
  - exists x. split; [exact Hdone | exact Hfn].
Defined.

Lemma first_role_witness :
  ∃ fnProps,
    role fnProps = "arn:aws:iam::111111111111:role/AcceptNlb"
    ∧ tryFindChild synthesis.1 {| stackOf := "Perimeter"; pathOf := [] |} constructName
      = Some (Function fnProps).
Proof.
  apply (first_construct_fixes_function_role
           (accept "Perimeter" [] "AcceptNlb" "vpce-svc-1")
           [accept "Perimeter" ["Firewall"] "AcceptMgmt" "vpce-svc-2";
            accept "SharedNetwork" [] "AcceptNlb" "vpce-svc-3";
            accept "Perimeter" [] "AcceptProxy" "vpce-svc-4"] ∅).
  - reflexivity.
  - reflexivity.
  - intros child. apply lookup_empty.
  - intros [_ Hid]. discriminate Hid.
Defined.

Lemma self_named_witness :
  functionsCreatedIn "Perimeter"
    (trace (constructAll
              ({| reqScope := {| stackOf := "Perimeter"; pathOf := [] |};
                  reqId := constructName;
                  reqProps := reqProps (accept "Perimeter" [] "x" "vpce-svc-1") |}
               :: program) ∅).2) = []
  ∧ ∀ token,
      token ∈ serviceTokensIn "Perimeter"
        (trace (constructAll
                  ({| reqScope := {| stackOf := "Perimeter"; pathOf := [] |};
                      reqId := constructName;
                      reqProps := reqProps (accept "Perimeter" [] "x" "vpce-svc-1") |}
                   :: program) ∅).2) →
      token = None.
Proof.
  apply (self_named_construct_shadows_function "Perimeter"
           (reqProps (accept "Perimeter" [] "x" "vpce-svc-1")) program ∅).
  - reflexivity.
  - intros child. apply lookup_empty.
Defined.

End AcceptVpcEndpointMoreSpec.

(** ** Further laws of the metadata service's resource policies *)

Module MetadataCollectionMoreSpec.
  Import MetadataCollection MetadataCollectionSpec.

Section Laws.
  Context {Account : Type}.
  Variable getAccountId : list Account → string → option string.

  Implicit Types (props : MetadataServiceProps Account).

  Local Abbreviation readers := (metadataReadOnlyRoles getAccountId).
  Local Abbreviation service := (createMetadataService getAccountId).
  Local Abbreviation olderService := (createMetadataService_older getAccountId).

(** X16. A reader in an account the directory does not know still becomes a
    principal: its ARN names the account [undefined], and the read-only
    statements are attached with it. *)
Theorem reader_of_unknown_account_is_named_undefined props
    (c : ResolvedIamConfig) (r : IamRoleConfig) :
  c ∈ getIamConfigs props →
  r ∈ default [] (roles (iam c)) →
  truthy_flag (metaDataReadOnlyAccess r) = true →
  getAccountId (accounts props) (accountKey c) = None →
  ArnPrincipal ("arn:aws:iam::undefined:role/" +:+ role r) ∈ readers props
  ∧ readOnlyKeyStatement (readers props) ∈ keyPolicy (service props)
  ∧ readOnlyBucketStatement (readers props) ∈ bucketPolicy (service props).
Proof.
  intros Hc Hr Hflag Hnone.
  assert (ArnPrincipal ("arn:aws:iam::undefined:role/" +:+ role r) ∈ readers props) as Hin.
  { apply elem_of_readers. exists c, r. by rewrite Hnone. }
  split; [done|].
  unfold createMetadataService. simpl.
  destruct (readers props) as [|p l]; [by apply elem_of_nil in Hin|].
  simpl. split; left.
Qed.


End Laws.

(** *** The laws on concrete configurations *)

Import MetadataConfigs ReaderConfigs.

Lemma unknown_account_witness :
  ArnPrincipal "arn:aws:iam::undefined:role/Guest"
    ∈ metadataReadOnlyRoles accountIds withStranger
  ∧ readOnlyKeyStatement (metadataReadOnlyRoles accountIds withStranger)
      ∈ keyPolicy (createMetadataService accountIds withStranger)
  ∧ readOnlyBucketStatement (metadataReadOnlyRoles accountIds withStranger)
      ∈ bucketPolicy (createMetadataService accountIds withStranger).
Proof.
  apply (reader_of_unknown_account_is_named_undefined accountIds withStranger
           strangerConfig {| role := "Guest"; metaDataReadOnlyAccess := Some true |}).
  - simpl. repeat constructor.
  - simpl. repeat constructor.
  - reflexivity.
  - reflexivity.
Defined.


End MetadataCollectionMoreSpec.

(** ** The managed policies of the metadata readers *)

Module MetadataPoliciesSpec.
  Import MetadataCollection MetadataPolicies.

Section Laws.
  Context {AccountStack StackOutput : Type} `{EqDecision AccountStack}.
  Variable tryFindOneByName : list StackOutput → string → string → option string.
  Variable tryGetOrCreateAccountStack : string → option string → option AccountStack.
  Variable createPolicyName : string → string.

  Implicit Types (taken : list (AccountStack * string)).
  Implicit Types (c : ResolvedIamConfig) (configs : list ResolvedIamConfig).
  Implicit Types (outputs : list StackOutput).

  Local Abbreviation policy := (policyFor createPolicyName).
  Local Abbreviation policies :=
    (policiesFor tryFindOneByName tryGetOrCreateAccountStack createPolicyName).
  Local Abbreviation attach :=
    (attachReaderPolicies tryFindOneByName tryGetOrCreateAccountStack createPolicyName).

(** *** The monad *)

Lemma synth_bind_fulfilled {A B} (m : @Synth AccountStack A)
    (k : A → @Synth AccountStack B) taken (b : B) :
  completion (synth_bind m k taken).2 = Fulfilled b →
  ∃ a, completion (m taken).2 = Fulfilled a
       ∧ completion (k a (m taken).1).2 = Fulfilled b
       ∧ trace (synth_bind m k taken).2 = trace (m taken).2 ++ trace (k a (m taken).1).2
       ∧ (synth_bind m k taken).1 = (k a (m taken).1).1.
Proof.
  unfold synth_bind. destruct (completion (m taken).2) as [a|e]; simpl; [|done].
  intros Hb. by exists a.
Qed.

Lemma forEach_cons {A} (body : A → @Synth AccountStack unit) (x : A) (l : list A) :
  forEach body (x :: l) = synth_bind (body x) (λ _, forEach body l).
Proof. done. Qed.

(** *** One policy *)

Lemma register_taken (scope : AccountStack) (id : string) (e : Event AccountStack) taken :
  (scope, id) ∈ taken →
  register scope id e taken =
    (taken, MkRun [] (Rejected ("There is already a Construct with name '" +:+ id +:+ "'"))).
Proof. intros Hin. unfold register. by rewrite decide_True. Qed.

Lemma register_fresh (scope : AccountStack) (id : string) (e : Event AccountStack) taken :
  (scope, id) ∉ taken →
  register scope id e taken = ((scope, id) :: taken, MkRun [e] (Fulfilled tt)).
Proof. intros Hin. unfold register. by rewrite decide_False. Qed.

(** A policy either fails or takes its id; it takes ids in its own stack
    only, and gives none back. *)
Lemma policy_outcome (stack : AccountStack) (k bucketName : string)
    (output : option string) taken :
  (∀ x, x ∈ taken → x ∈ (policy stack k bucketName output taken).1)
  ∧ (∀ x, x ∈ (policy stack k bucketName output taken).1 → x ∈ taken ∨ x.1 = stack)
  ∧ (stackRequests (trace (policy stack k bucketName output taken).2) = [])
  ∧ ((∃ e, completion (policy stack k bucketName output taken).2 = Rejected e)
     ∨ (completion (policy stack k bucketName output taken).2 = Fulfilled tt
        ∧ (stack, "IAM-Metadata-Policy-" +:+ k)
            ∈ (policy stack k bucketName output taken).1
        ∧ policiesMade (trace (policy stack k bucketName output taken).2)
          = [(stack, "IAM-Metadata-Policy-" +:+ k)])).
Proof.
  unfold policyFor, synth_bind, synth_emit, synth_ret, emit, run_ret.
  destruct (decide ((stack, "IAM-Metadata-Policy-" +:+ k) ∈ taken)) as [Hin|Hin].
  { rewrite (register_taken _ _ _ _ Hin). simpl.
    split; [done|]. split; [by left|]. split; [done|]. left. by eexists. }
  rewrite (register_fresh _ _ _ _ Hin). simpl.
  destruct output as [roleArn|]; simpl.
  - destruct (decide ((stack, "metadataRole")
                      ∈ (stack, "IAM-Metadata-Policy-" +:+ k) :: taken)) as [Hrole|Hrole].
    + rewrite (register_taken _ _ _ _ Hrole). simpl.
      split; [by right|]. split.
      { intros x [->|Hx]%elem_of_cons; [by right | by left]. }
      split; [done|]. left. by eexists.
    + rewrite (register_fresh _ _ _ _ Hrole). simpl.
      split; [intros x Hx; by do 2 right|]. split.
      { intros x [->|[->|Hx]%elem_of_cons]%elem_of_cons; [by right | by right | by left]. }
      split; [done|]. right. split; [done|]. split; [right; left | done].
  - split; [by right|]. split.
    { intros x [->|Hx]%elem_of_cons; [by right | by left]. }
    split; [done|]. right. split; [done|]. split; [left | done].
Qed.

(** *** The policies of one account *)

Lemma outputs_outcome (stack : AccountStack) (k bucketName : string)
    (l : list (option string)) taken :
  (∀ x, x ∈ taken → x ∈ (forEach (policy stack k bucketName) l taken).1)
  ∧ (∀ x, x ∈ (forEach (policy stack k bucketName) l taken).1 → x ∈ taken ∨ x.1 = stack)
  ∧ stackRequests (trace (forEach (policy stack k bucketName) l taken).2) = [].
Proof.
  revert taken. induction l as [|output l IH]; intros taken; simpl.
  - split; [done|]. split; [by left | done].
  - unfold synth_bind.
    destruct (policy_outcome stack k bucketName output taken)
      as (Hgrow & Hown & Hquiet & _).
    destruct (completion (policy stack k bucketName output taken).2) as [[]|e]; simpl.
    + destruct (IH (policy stack k bucketName output taken).1) as (Hgrow' & Hown' & Hquiet').
      split; [intros x Hx; by apply Hgrow', Hgrow|]. split.
      * intros x Hx. destruct (Hown' x Hx) as [Hx'|Hx']; [by apply Hown | by right].
      * unfold stackRequests in *. by rewrite omap_app, Hquiet, Hquiet'.
    + done.
Qed.

Lemma two_outputs_rejected (stack : AccountStack) (k bucketName : string)
    (output1 output2 : option string) (more : list (option string)) taken :
  ∃ e, completion
         (forEach (policy stack k bucketName) (output1 :: output2 :: more) taken).2
       = Rejected e.
Proof.
  simpl. unfold synth_bind at 1.
  destruct (policy_outcome stack k bucketName output1 taken)
    as (_ & _ & _ & [[e He]|(Hdone & Hid & _)]).
  - rewrite He. simpl. by exists e.
  - rewrite Hdone. simpl. unfold synth_bind at 1.
    unfold policyFor at 1 3 4. unfold synth_bind at 1 3 4.
    rewrite (register_taken _ _ _ _ Hid). simpl. by eexists.
Qed.

Lemma policies_unfold outputs (logRegion bucketName : string) c :
  policies outputs logRegion bucketName c =
    synth_bind (synth_emit (RequestAccountStack (accountKey c) logRegion)) (λ _,
      match readersOf c, tryGetOrCreateAccountStack (accountKey c) (Some logRegion) with
      | r :: rs, Some stack =>
          forEach (policy stack (accountKey c) bucketName)
                  ((λ r, tryFindOneByName outputs (accountKey c) (role r)) <$> r :: rs)
      | _, _ => synth_ret tt
      end).
Proof.
  unfold policiesFor, roleOutputsOf, readersOf.
  destruct (roles (iam c)) as [configured|]; simpl; [|done].
  by destruct (filter _ configured).
Qed.

(** X18. Two readers in one account stop the synthesis. The policies of an
    account are all made under the one id [IAM-Metadata-Policy-<account>]
    of the account's stack: when an account with a stack has two or more
    roles with [meta-data-read-only-access], the second policy finds the id
    taken and the loop throws, whatever the other accounts are. *)
Theorem second_reader_of_an_account_stops_synthesis outputs
    (logRegion bucketName : string) configs c (stack : AccountStack) taken :
  c ∈ configs →
  2 ≤ length (readersOf c) →
  tryGetOrCreateAccountStack (accountKey c) (Some logRegion) = Some stack →
  ∃ e, completion (attach outputs logRegion bucketName configs taken).2 = Rejected e.
Proof.
  intros Hc Htwo Hstack. unfold attachReaderPolicies.
  assert (∀ taken', ∃ e, completion (policies outputs logRegion bucketName c taken').2
                         = Rejected e) as Hfails.
  { intros taken'. rewrite policies_unfold. unfold synth_bind at 1. simpl.
    rewrite Hstack. destruct (readersOf c) as [|r1 [|r2 rs]]; simpl in Htwo; [lia | lia |].
    destruct (two_outputs_rejected stack (accountKey c) bucketName
                (tryFindOneByName outputs (accountKey c) (role r1))
                (tryFindOneByName outputs (accountKey c) (role r2))
                ((λ r, tryFindOneByName outputs (accountKey c) (role r)) <$> rs)
                taken') as [e He].
    exists e. exact He. }
  revert taken. induction configs as [|c' rest IH]; intros taken.
  { by apply elem_of_nil in Hc. }
  simpl. unfold synth_bind at 1.
  destruct (completion (policies outputs logRegion bucketName c' taken).2)
    as [[]|e] eqn:Hdone; simpl; [|by exists e].
  apply elem_of_cons in Hc as [->|Hc].
  - destruct (Hfails taken) as [e He]. congruence.
  - by apply IH.
Qed.

Lemma stackRequests_app (events1 events2 : list (Event AccountStack)) :
  stackRequests (events1 ++ events2) = stackRequests events1 ++ stackRequests events2.
Proof. apply omap_app. Qed.

Lemma stackRequests_emit_bind (e : Event AccountStack) (k : unit → @Synth AccountStack unit)
    taken :
  stackRequests (trace (synth_bind (synth_emit e) k taken).2)
  = stackRequests [e] ++ stackRequests (trace (k tt taken).2).
Proof. unfold synth_bind, synth_emit, emit. simpl. by destruct e. Qed.

Lemma policies_requests outputs (logRegion bucketName : string) c taken :
  stackRequests (trace (policies outputs logRegion bucketName c taken).2)
  = [(accountKey c, logRegion)].
Proof.
  rewrite policies_unfold, stackRequests_emit_bind.
  destruct (readersOf c) as [|r rs]; [done|].
  destruct (tryGetOrCreateAccountStack (accountKey c) (Some logRegion)) as [stack|]; [|done].
  destruct (outputs_outcome stack (accountKey c) bucketName
              ((λ r, tryFindOneByName outputs (accountKey c) (role r)) <$> r :: rs) taken)
    as (_ & _ & Hquiet).
  by rewrite Hquiet.
Qed.

(** X19. A stack is requested for every account with an IAM configuration,
    whether or not any of its roles reads the metadata: a loop that
    completes has asked the registry once per configuration, in order, each
    time for the region of the central log services. *)
Theorem stack_requested_for_every_account outputs (logRegion bucketName : string)
    configs taken :
  completion (attach outputs logRegion bucketName configs taken).2 = Fulfilled tt →
  stackRequests (trace (attach outputs logRegion bucketName configs taken).2)
  = (λ c, (accountKey c, logRegion)) <$> configs.
Proof.
  unfold attachReaderPolicies. revert taken.
  induction configs as [|c rest IH]; intros taken; [done|].
  rewrite forEach_cons.
  intros ([] & Hdone & Hrest & -> & _)%synth_bind_fulfilled.
  by rewrite stackRequests_app, (IH _ Hrest), policies_requests.
Qed.

(** *** When the loop completes *)

Local Abbreviation targets := (policyTargets tryGetOrCreateAccountStack).

Lemma synth_bind_run {A B} (m : @Synth AccountStack A) (k : A → @Synth AccountStack B)
    taken (a : A) :
  completion (m taken).2 = Fulfilled a →
  synth_bind m k taken =
    ((k a (m taken).1).1,
     MkRun (trace (m taken).2 ++ trace (k a (m taken).1).2)
           (completion (k a (m taken).1).2)).
Proof. intros Ha. unfold synth_bind. by rewrite Ha. Qed.

Lemma policiesMade_app (events1 events2 : list (Event AccountStack)) :
  policiesMade (events1 ++ events2) = policiesMade events1 ++ policiesMade events2.
Proof. apply omap_app. Qed.

(** In a stack none of whose ids is taken, a policy is made. *)
Lemma policy_fresh (stack : AccountStack) (k bucketName : string)
    (output : option string) taken :
  (∀ id, (stack, id) ∉ taken) →
  completion (policy stack k bucketName output taken).2 = Fulfilled tt
  ∧ policiesMade (trace (policy stack k bucketName output taken).2)
    = [(stack, "IAM-Metadata-Policy-" +:+ k)].
Proof.
  intros Hfree.
  destruct (policy_outcome stack k bucketName output taken)
    as (_ & _ & _ & [[e He]|(Hdone & _ & Hmade)]); [|done].
  exfalso. revert He.
  unfold policyFor, synth_bind, synth_emit, synth_ret, emit, run_ret.
  rewrite (register_fresh _ _ _ _ (Hfree _)). simpl.
  destruct output as [roleArn|]; simpl; [|done].
  rewrite register_fresh; [done|].
  intros [[=]|Hin]%elem_of_cons. by apply (Hfree "metadataRole").
Qed.

Lemma targets_cons (logRegion : string) c configs :
  targets logRegion (c :: configs) =
    match readersOf c, tryGetOrCreateAccountStack (accountKey c) (Some logRegion) with
    | _ :: _, Some stack =>
        (stack, "IAM-Metadata-Policy-" +:+ accountKey c) :: targets logRegion configs
    | _, _ => targets logRegion configs
    end.
Proof.
  unfold policyTargets. simpl.
  destruct (readersOf c); [done|].
  by destruct (tryGetOrCreateAccountStack (accountKey c) (Some logRegion)).
Qed.

(** X20. With at most one reader per account the loop completes. When no
    account has two roles that read the metadata, the accounts owed a policy
    have stacks of their own, and none of these stacks holds a construct
    yet, every such account gets exactly one managed policy, under the id
    [IAM-Metadata-Policy-<account>] of its stack, in the order of the
    configuration, and nothing throws. *)
Theorem single_readers_get_one_policy_each outputs (logRegion bucketName : string)
    configs taken :
  (∀ c, c ∈ configs → length (readersOf c) ≤ 1) →
  NoDup (targets logRegion configs).*1 →
  (∀ stack id, stack ∈ (targets logRegion configs).*1 → (stack, id) ∉ taken) →
  completion (attach outputs logRegion bucketName configs taken).2 = Fulfilled tt
  ∧ policiesMade (trace (attach outputs logRegion bucketName configs taken).2)
    = targets logRegion configs.
Proof.
  unfold attachReaderPolicies. revert taken.
  induction configs as [|c rest IH]; intros taken Hone Hdistinct Hfree; [done|].
  assert (∀ c', c' ∈ rest → length (readersOf c') ≤ 1) as Hone'
    by (intros c' Hc'; apply Hone; by right).
  rewrite forEach_cons, policies_unfold.
  rewrite targets_cons in Hdistinct, Hfree |- *.
  destruct (readersOf c) as [|r [|r' rs]] eqn:Hreaders.
  - unfold synth_bind, synth_emit, synth_ret, emit, run_ret. simpl.
    destruct (IH taken Hone' Hdistinct Hfree) as [Hdone Hmade].
    by rewrite Hdone, Hmade.
  - destruct (tryGetOrCreateAccountStack (accountKey c) (Some logRegion))
      as [stack|] eqn:Hstack.
    + simpl in Hdistinct, Hfree. apply NoDup_cons in Hdistinct as [Hnew Hdistinct].
      destruct (policy_fresh stack (accountKey c) bucketName
                  (tryFindOneByName outputs (accountKey c) (role r)) taken)
        as [Hdone Hmade].
      { intros id. apply Hfree. left. }
      destruct (policy_outcome stack (accountKey c) bucketName
                  (tryFindOneByName outputs (accountKey c) (role r)) taken)
        as (_ & Hown & _ & _).
      destruct (IH (policy stack (accountKey c) bucketName
                      (tryFindOneByName outputs (accountKey c) (role r)) taken).1
                  Hone' Hdistinct) as [Hdone' Hmade'].
      { intros stack' id Hstack' Hin.
        destruct (Hown _ Hin) as [Hold|Heq].
        - apply (Hfree stack' id); [by right | done].
        - simpl in Heq, Hnew. subst stack'. by apply Hnew. }
      change ((λ r, tryFindOneByName outputs (accountKey c) (role r)) <$> [r])
        with [tryFindOneByName outputs (accountKey c) (role r)].
      rewrite (forEach_cons (policy stack (accountKey c) bucketName)).
      set (one := policy stack (accountKey c) bucketName
                    (tryFindOneByName outputs (accountKey c) (role r))) in *.
      clearbody one.
      unfold synth_bind, synth_emit, synth_ret, emit, run_ret.
      simpl. rewrite Hdone. simpl.
      split; [exact Hdone'|].
      rewrite app_nil_r.
      change (policiesMade (?e :: ?t1 ++ ?t2)) with (policiesMade (t1 ++ t2)).
      by rewrite policiesMade_app, Hmade, Hmade'.
    + unfold synth_bind, synth_emit, synth_ret, emit, run_ret. simpl.
      destruct (IH taken Hone' Hdistinct Hfree) as [Hdone Hmade].
      by rewrite Hdone, Hmade.
  - specialize (Hone c (list_elem_of_here c rest)). rewrite Hreaders in Hone.
    simpl in Hone. lia.
Qed.

End Laws.

(** *** The laws on concrete configurations *)

Import ReaderConfigs.

Lemma second_reader_witness :
  ∃ e, completion
         (attachReaderPolicies findRole stackOfAccount policyName roleOutputs
            "ca-central-1" "pbmmaccel-333333333333-metadata-bucket" twoAuditors []).2
       = Rejected e.
Proof.
  apply (second_reader_of_an_account_stops_synthesis findRole stackOfAccount policyName
           roleOutputs "ca-central-1" "pbmmaccel-333333333333-metadata-bucket"
           twoAuditors securityConfig "security/ca-central-1" []).
  - right. left.
  - vm_compute. lia.
  - reflexivity.
Defined.

Lemma stack_requests_witness :
  stackRequests
    (trace (attachReaderPolicies findRole stackOfAccount policyName roleOutputs
              "ca-central-1" "pbmmaccel-333333333333-metadata-bucket" oneAuditorEach []).2)
  = [("ops", "ca-central-1"); ("dev", "ca-central-1"); ("security", "ca-central-1")].
Proof.
  apply (stack_requested_for_every_account findRole stackOfAccount policyName roleOutputs
           "ca-central-1" "pbmmaccel-333333333333-metadata-bucket" oneAuditorEach []).
  reflexivity.
Defined.

Lemma single_readers_witness :
  completion
    (attachReaderPolicies findRole stackOfAccount policyName roleOutputs
       "ca-central-1" "pbmmaccel-333333333333-metadata-bucket" oneAuditorEach []).2
  = Fulfilled tt
  ∧ policiesMade
      (trace (attachReaderPolicies findRole stackOfAccount policyName roleOutputs
                "ca-central-1" "pbmmaccel-333333333333-metadata-bucket" oneAuditorEach []).2)
    = [("ops/ca-central-1", "IAM-Metadata-Policy-ops");
       ("security/ca-central-1", "IAM-Metadata-Policy-security")].
Proof.
  apply (single_readers_get_one_policy_each findRole stackOfAccount policyName roleOutputs
           "ca-central-1" "pbmmaccel-333333333333-metadata-bucket" oneAuditorEach []).
  - intros c Hc. repeat (apply elem_of_cons in Hc as [->|Hc]); [| | |by apply elem_of_nil in Hc];
      vm_compute; lia.
  - apply (bool_decide_unpack _). by vm_compute.
  - intros stack id _. apply not_elem_of_nil.
Defined.

End MetadataPoliciesSpec.
